(** * Verification of the Fluence CLI configuration code

    The development covers three source files:
    - [src/lib/configs/project/service.ts] (the service config kind: schema,
      semantic validator, default template, init functions),
    - [src/lib/init.ts] (project scaffolding),
    - [src/lib/setupEnvironment.ts] (environment variable resolution).

    JSON documents, JSON Schema validation, the YAML reader and the file system
    are modelled as far as these files use them. *)

From Stdlib Require Import ZArith Ascii String List Bool Lia DecimalString.
From stdpp Require Import base option list strings gmap.

Set Warnings "-register-all".

Local Open Scope Z_scope.
Local Open Scope list_scope.

(** The double quote, as a string. *)
Definition dq : string := String "034"%char EmptyString.

(** ** JSON values *)

Module Json.

(** A parsed document.  JavaScript numbers are modelled by integers: the only
    number the service schema constrains is the integer [version]. *)
Inductive value : Type :=
| VNull
| VBool (b : bool)
| VNum (n : Z)
| VStr (s : string)
| VArr (items : list value)
| VObj (fields : list (string * value)).

(** Property access [o[k]] on an object given by its entries, in insertion
    order. *)
Fixpoint lookup_key {A : Type} (k : string) (o : list (string * A)) : option A :=
  match o with
  | [] => None
  | (k', x) :: rest => if String.eqb k k' then Some x else lookup_key k rest
  end.

(** The [in] operator on own properties. *)
Definition has_key {A : Type} (k : string) (o : list (string * A)) : bool :=
  match lookup_key k o with Some _ => true | None => false end.

(** Assignment [o[k] = x]: an existing key keeps its position, a new key is
    appended. *)
Fixpoint js_assign {A : Type} (o : list (string * A)) (k : string) (x : A)
  : list (string * A) :=
  match o with
  | [] => [(k, x)]
  | (k', y) :: rest =>
      if String.eqb k k' then (k', x) :: rest else (k', y) :: js_assign rest k x
  end.

(** Object spread [{...a, ...b}]: the entries of [b] are assigned over [a]. *)
Definition js_spread {A : Type} (a b : list (string * A)) : list (string * A) :=
  fold_left (fun o kx => js_assign o (fst kx) (snd kx)) b a.

(** Field of a document; [None] stands for [undefined]. *)
Definition get_field (k : string) (v : value) : option value :=
  match v with
  | VObj fields => lookup_key k fields
  | _ => None
  end.

(** *** Facts about objects *)

Lemma lookup_key_In {A : Type} (k : string) (o : list (string * A)) (x : A) :
  lookup_key k o = Some x -> In (k, x) o.
Proof.
  induction o as [|[k' y] rest IH]; simpl; [discriminate|].
  destruct (String.eqb k k') eqn:E.
  - apply String.eqb_eq in E. intros [= ->]. subst. now left.
  - intros H. right. now apply IH.
Qed.

Lemma lookup_js_assign_eq {A : Type} (o : list (string * A)) (k : string) (x : A) :
  lookup_key k (js_assign o k x) = Some x.
Proof.
  induction o as [|[k' y] rest IH]; simpl.
  - now rewrite String.eqb_refl.
  - destruct (String.eqb k k') eqn:E; simpl; rewrite E; [reflexivity|exact IH].
Qed.

Lemma lookup_js_assign_ne {A : Type} (o : list (string * A)) (k k' : string) (x : A) :
  k <> k' -> lookup_key k' (js_assign o k x) = lookup_key k' o.
Proof.
  intros Hne. induction o as [|[k0 y] rest IH]; simpl.
  - destruct (String.eqb k' k) eqn:E; [|reflexivity].
    apply String.eqb_eq in E. congruence.
  - destruct (String.eqb k k0) eqn:E; simpl.
    + apply String.eqb_eq in E. subst k0.
      destruct (String.eqb k' k) eqn:E'; [|reflexivity].
      apply String.eqb_eq in E'. congruence.
    + destruct (String.eqb k' k0); [reflexivity|exact IH].
Qed.

Lemma lookup_js_spread_absent {A : Type} (b a : list (string * A)) (k : string) :
  lookup_key k b = None -> lookup_key k (js_spread a b) = lookup_key k a.
Proof.
  unfold js_spread. revert a.
  induction b as [|[k' y] rest IH]; intros a; simpl; [reflexivity|].
  destruct (String.eqb k k') eqn:E; [discriminate|].
  intros H. rewrite IH by exact H.
  apply lookup_js_assign_ne. intros ->. now rewrite String.eqb_refl in E.
Qed.

Lemma flat_map_nil_elem {A B : Type} (f : A -> list B) (l : list A) (a : A) :
  flat_map f l = [] -> In a l -> f a = [].
Proof.
  induction l as [|b l IH]; simpl; [intros _ []|].
  intros [Hb Hl]%app_eq_nil [->|Hin]; [exact Hb|now apply IH].
Qed.

Lemma lookup_key_has_key {A : Type} (k : string) (o : list (string * A)) :
  has_key k o = true -> exists x, lookup_key k o = Some x.
Proof. unfold has_key. destruct (lookup_key k o); [eauto|discriminate]. Qed.

Lemma lookup_key_cons_ne {A : Type} (k k' : string) (x : A) (o : list (string * A)) :
  k <> k' -> lookup_key k ((k', x) :: o) = lookup_key k o.
Proof.
  intros Hne. simpl. destruct (String.eqb k k') eqn:E; [|reflexivity].
  apply String.eqb_eq in E. contradiction.
Qed.

(** Induction on documents, with the hypothesis for every field of an
    object. *)
Lemma value_ind_fields (P : value -> Prop) :
  P VNull -> (forall b, P (VBool b)) -> (forall n, P (VNum n)) ->
  (forall s, P (VStr s)) -> (forall items, P (VArr items)) ->
  (forall fields, Forall (fun kx => P (snd kx)) fields -> P (VObj fields)) ->
  forall v, P v.
Proof.
  intros HNull HBool HNum HStr HArr HObj. fix IH 1.
  intros [| b | n | s | items | fields];
    [exact HNull|apply HBool|apply HNum|apply HStr|apply HArr|].
  apply HObj. revert fields. fix IHfields 1.
  intros [|[k x] rest]; constructor; [apply IH|apply IHfields].
Qed.

End Json.

Export Json.

(** ** JSON Schema (the keywords the service schema uses) *)

Module JsonSchema.

Inductive schema : Type :=
| SAny
| SObject (properties : list (string * schema))
          (required : list string)
          (additionalProperties : option schema)
| SString (pattern : option string) (nullable : bool)
| SNumber (const : option Z)
| SBoolean.

(** [additionalProperties: false] is [None]; a schema [s] is [Some s]; an
    absent keyword admits everything, [Some SAny]. *)
Definition additionalProperties_false : option schema := None.

Inductive keyword : Type :=
| KType
| KRequired (missingProperty : string)
| KAdditionalProperties (additionalProperty : string)
| KConst
| KPattern.

(** A validation error: where in the document, and which keyword failed. *)
Record verror : Type := VError { instancePath : list string; failed : keyword }.

Section Validation.

(** [regexTest p s] is [new RegExp(p).test(s)]; the regular expression
    engine is the platform's. *)
Variable regexTest : string -> string -> bool.

Definition required_errors (path : list string) (required : list string)
    (fields : list (string * value)) : list verror :=
  flat_map (fun r => if has_key r fields then [] else [VError path (KRequired r)])
           required.

(** All violations of [s] by [v], located below [path]: what the validator
    reports under [allErrors]; a document conforms when there is none.  What
    it reports by default is [first_error] below. *)
Fixpoint schema_errors (s : schema) (path : list string) (v : value) {struct v}
  : list verror :=
  match s with
  | SAny => []
  | SObject properties required additional =>
      match v with
      | VObj fields =>
          required_errors path required fields ++
          flat_map
            (fun kx =>
               match kx with
               | (k, x) =>
                   match lookup_key k properties with
                   | Some sk => schema_errors sk (path ++ [k]) x
                   | None =>
                       match additional with
                       | Some sa => schema_errors sa (path ++ [k]) x
                       | None => [VError path (KAdditionalProperties k)]
                       end
                   end
               end)
            fields
      | _ => [VError path KType]
      end
  | SString pattern nullable =>
      match v with
      | VStr str =>
          match pattern with
          | Some p => if regexTest p str then [] else [VError path KPattern]
          | None => []
          end
      | VNull => if nullable then [] else [VError path KType]
      | _ => [VError path KType]
      end
  | SNumber const =>
      match v with
      | VNum n =>
          match const with
          | Some c => if Z.eqb n c then [] else [VError path KConst]
          | None => []
          end
      | _ => [VError path KType]
      end
  | SBoolean =>
      match v with
      | VBool _ => []
      | _ => [VError path KType]
      end
  end.

Definition conforms (s : schema) (v : value) : bool :=
  match schema_errors s [] v with [] => true | _ => false end.

(** *** What the validator reports

    [schema_errors] lists every violation.  The validator (Ajv, created in
    initConfig.ts outside the sources) reports them all only under its
    [allErrors] option; by default it stops at the first violation it meets.
    It checks the type first, then the keywords of an object in the order
    [required], [additionalProperties], [properties], the properties in the
    order of the schema. *)

Definition first_some {A B : Type} (f : A -> option B) (l : list A) : option B :=
  fold_right (fun a rest => match f a with Some b => Some b | None => rest end) None l.

(** The first violation in the validator's order, if there is one. *)
Fixpoint first_error (s : schema) (path : list string) (v : value) {struct v}
  : option verror :=
  match s with
  | SAny => None
  | SObject properties required additional =>
      match v with
      | VObj fields =>
          let checked :=
            map (fun kx : string * value =>
                   (fst kx,
                    match lookup_key (fst kx) properties with
                    | Some sk => first_error sk (path ++ [fst kx]) (snd kx)
                    | None =>
                        match additional with
                        | Some sa => first_error sa (path ++ [fst kx]) (snd kx)
                        | None => Some (VError path (KAdditionalProperties (fst kx)))
                        end
                    end)) fields in
          match first_some
                  (fun r => if has_key r fields then None
                            else Some (VError path (KRequired r))) required with
          | Some e => Some e
          | None =>
              match first_some
                      (fun ke : string * option verror =>
                         if has_key (fst ke) properties then None else snd ke)
                      checked with
              | Some e => Some e
              | None =>
                  first_some
                    (fun ks : string * schema =>
                       first_some
                         (fun ke : string * option verror =>
                            if String.eqb (fst ke) (fst ks) then snd ke else None)
                         checked)
                    properties
              end
          end
      | _ => Some (VError path KType)
      end
  | _ => hd_error (schema_errors s path v)
  end.

(** What a validator may hand to its caller, whatever its mode: violations
    of the document, and at least one when there is any. *)
Definition reports_violations (report : schema -> value -> list verror) : Prop :=
  forall s v,
    (forall e, In e (report s v) -> In e (schema_errors s [] v)) /\
    (schema_errors s [] v <> [] -> report s v <> []).

(** The two modes of the validator. *)
Definition all_errors (s : schema) (v : value) : list verror := schema_errors s [] v.

Definition first_error_only (s : schema) (v : value) : list verror :=
  match first_error s [] v with Some e => [e] | None => [] end.

(** *** Facts about validation *)

Lemma first_some_Some {A B : Type} (f : A -> option B) (l : list A) (b : B) :
  first_some f l = Some b -> exists a, In a l /\ f a = Some b.
Proof.
  induction l as [|a l IH]; simpl; [discriminate|].
  destruct (f a) as [b'|] eqn:Ha.
  - intros [= <-]. exists a. auto.
  - intros Hl. destruct (IH Hl) as (a' & Hin & Ha'). exists a'. auto.
Qed.

Lemma first_some_None {A B : Type} (f : A -> option B) (l : list A) (a : A) :
  first_some f l = None -> In a l -> f a = None.
Proof.
  induction l as [|a' l IH]; simpl; [intros _ []|].
  destruct (f a') as [b'|] eqn:Ha; [discriminate|].
  intros Hl [<-|Hin]; [exact Ha|now apply IH].
Qed.

Lemma flat_map_nil_intro {A B : Type} (f : A -> list B) (l : list A) :
  (forall a, In a l -> f a = []) -> flat_map f l = [].
Proof.
  induction l as [|a l IH]; intros H; [reflexivity|].
  simpl. rewrite (H a) by now left. apply IH. intros a' Ha'. apply H. now right.
Qed.

Lemma hd_error_In {A : Type} (l : list A) (a : A) : hd_error l = Some a -> In a l.
Proof. destruct l; [discriminate|]. intros [= <-]. now left. Qed.

Lemma hd_error_nil {A : Type} (l : list A) : hd_error l = None -> l = [].
Proof. now destruct l. Qed.

Lemma required_errors_missing (path : list string) (required : list string)
    (fields : list (string * value)) (r : string) :
  In r required -> has_key r fields = false ->
  In (VError path (KRequired r)) (required_errors path required fields).
Proof.
  intros Hin Hmiss. unfold required_errors. apply in_flat_map.
  exists r. split; [exact Hin|]. rewrite Hmiss. now left.
Qed.

(** The errors of a declared property are among the object's errors. *)
Lemma schema_errors_property (properties : list (string * schema))
    (required : list string) (additional : option schema) (path : list string)
    (fields : list (string * value)) (k : string) (x : value) (sk : schema) (e : verror) :
  In (k, x) fields ->
  lookup_key k properties = Some sk ->
  In e (schema_errors sk (path ++ [k]) x) ->
  In e (schema_errors (SObject properties required additional) path (VObj fields)).
Proof.
  intros Hin Hk He. simpl. apply in_or_app. right.
  apply in_flat_map. exists (k, x). split; [exact Hin|].
  now rewrite Hk.
Qed.

Lemma conforms_false_of_error (s : schema) (v : value) (e : verror) :
  In e (schema_errors s [] v) -> conforms s v = false.
Proof.
  unfold conforms. destruct (schema_errors s [] v); [intros []|reflexivity].
Qed.

(** The first violation is one of the violations. *)
Lemma first_error_sound (v : value) :
  forall s path e, first_error s path v = Some e -> In e (schema_errors s path v).
Proof.
  induction v as [| b | n | str | items | fields IH] using value_ind_fields;
    intros s path e;
    (destruct s as [|props req addl|pat nul|c|];
     [discriminate
     | | apply hd_error_In | apply hd_error_In | apply hd_error_In]);
    try (cbn; intros [= <-]; now left).
  rewrite List.Forall_forall in IH.
  cbn [first_error schema_errors].
  set (result := fun kx : string * value =>
         match lookup_key (fst kx) props with
         | Some sk => first_error sk (path ++ [fst kx]) (snd kx)
         | None =>
             match addl with
             | Some sa => first_error sa (path ++ [fst kx]) (snd kx)
             | None => Some (VError path (KAdditionalProperties (fst kx)))
             end
         end).
  assert (Hfield : forall kx, In kx fields -> result kx = Some e ->
            In e (flat_map
                    (fun kx : string * value =>
                       let (k, x) := kx in
                       match lookup_key k props with
                       | Some sk => schema_errors sk (path ++ [k]) x
                       | None =>
                           match addl with
                           | Some sa => schema_errors sa (path ++ [k]) x
                           | None => [VError path (KAdditionalProperties k)]
                           end
                       end) fields)).
  { intros [k x] Hin Hres. apply in_flat_map. exists (k, x). split; [exact Hin|].
    unfold result in Hres. simpl in Hres.
    destruct (lookup_key k props) as [sk|]; [now apply (IH (k, x) Hin)|].
    destruct addl as [sa|]; [now apply (IH (k, x) Hin)|].
    injection Hres as <-. now left. }
  destruct (first_some _ req) as [e1|] eqn:Hreq.
  { intros [= <-]. apply first_some_Some in Hreq as (r & Hin & Hr).
    apply in_or_app. left. unfold required_errors. apply in_flat_map.
    exists r. split; [exact Hin|].
    destruct (has_key r fields); [discriminate Hr|]. injection Hr as <-. now left. }
  destruct (first_some _ (map _ fields)) as [e2|] eqn:Hadd.
  { intros [= <-]. apply first_some_Some in Hadd as ([k oe] & Hin & Hoe).
    apply in_map_iff in Hin as (kx & Heq & Hin). injection Heq as <- <-.
    simpl in Hoe. destruct (has_key (fst kx) props); [discriminate Hoe|].
    apply in_or_app. right. now apply (Hfield kx Hin). }
  intros Hprops. apply first_some_Some in Hprops as (ks & _ & Hks).
  apply first_some_Some in Hks as ([k oe] & Hin & Hoe).
  apply in_map_iff in Hin as (kx & Heq & Hin). injection Heq as <- <-.
  simpl in Hoe. destruct (String.eqb (fst kx) (fst ks)); [|discriminate Hoe].
  apply in_or_app. right. now apply (Hfield kx Hin).
Qed.

(** Where no violation is met there is none. *)
Lemma first_error_complete (v : value) :
  forall s path, first_error s path v = None -> schema_errors s path v = [].
Proof.
  induction v as [| b | n | str | items | fields IH] using value_ind_fields;
    intros s path;
    (destruct s as [|props req addl|pat nul|c|];
     [reflexivity
     | | apply hd_error_nil | apply hd_error_nil | apply hd_error_nil]);
    try discriminate.
  rewrite List.Forall_forall in IH.
  cbn [first_error schema_errors].
  destruct (first_some _ req) as [e1|] eqn:Hreq; [discriminate|].
  destruct (first_some _ (map _ fields)) as [e2|] eqn:Hadd; [discriminate|].
  intros Hprops.
  assert (Hr : required_errors path req fields = []).
  { apply flat_map_nil_intro. intros r Hin.
    pose proof (first_some_None _ _ r Hreq Hin) as Hr. cbv beta in Hr.
    now destruct (has_key r fields). }
  rewrite Hr. cbn [app]. apply flat_map_nil_intro. intros [k x] Hin.
  pose proof (in_map (fun kx : string * value =>
                 (fst kx,
                  match lookup_key (fst kx) props with
                  | Some sk => first_error sk (path ++ [fst kx]) (snd kx)
                  | None =>
                      match addl with
                      | Some sa => first_error sa (path ++ [fst kx]) (snd kx)
                      | None => Some (VError path (KAdditionalProperties (fst kx)))
                      end
                  end)) fields (k, x) Hin) as Hchecked.
  cbn [fst snd] in Hchecked.
  destruct (lookup_key k props) as [sk|] eqn:Hk.
  - apply lookup_key_In in Hk.
    pose proof (first_some_None _ _ (k, sk) Hprops Hk) as Hks. cbv beta in Hks.
    pose proof (first_some_None _ _ _ Hks Hchecked) as Hx. cbn [fst snd] in Hx.
    rewrite String.eqb_refl in Hx. now apply (IH (k, x) Hin).
  - pose proof (first_some_None _ _ _ Hadd Hchecked) as Hx. cbn [fst snd] in Hx.
    unfold has_key in Hx. rewrite Hk in Hx.
    destruct addl as [sa|]; [now apply (IH (k, x) Hin)|discriminate Hx].
Qed.

(** Both modes report violations, and one at least when there is any. *)
Lemma all_errors_reports : reports_violations all_errors.
Proof. intros s v. now split. Qed.

Lemma first_error_only_reports : reports_violations first_error_only.
Proof.
  intros s v. unfold first_error_only. split.
  - destruct (first_error s [] v) as [e0|] eqn:He; [|intros e []].
    intros e [<-|[]]. now apply first_error_sound.
  - destruct (first_error s [] v) as [e0|] eqn:He; [discriminate|].
    intros Hne. now apply first_error_complete in He.
Qed.

(** A document with a violation is rejected in either mode. *)
Lemma violation_rejected (report : schema -> value -> list verror) (s : schema)
    (v : value) (e : verror) :
  reports_violations report ->
  In e (schema_errors s [] v) ->
  conforms s v = false /\ report s v <> [].
Proof.
  intros Hreport He. split; [eapply conforms_false_of_error, He|].
  apply (Hreport s v). intros Hnil. rewrite Hnil in He. destruct He.
Qed.

Lemma first_some_found {A B : Type} (f : A -> option B) (l : list A) (a : A) (b : B) :
  In a l -> f a = Some b -> exists b', first_some f l = Some b'.
Proof.
  induction l as [|a' l IH]; simpl; [intros []|].
  intros [->|Hin] Ha.
  - rewrite Ha. eauto.
  - destruct (f a') as [b'|]; [eauto|now apply IH].
Qed.

(** *** What a document without errors is made of *)

Lemma required_errors_nil (path : list string) (required : list string)
    (fields : list (string * value)) (r : string) :
  required_errors path required fields = [] -> In r required ->
  has_key r fields = true.
Proof.
  unfold required_errors. intros Hnil Hin.
  pose proof (flat_map_nil_elem _ _ _ Hnil Hin) as Hr. cbv beta in Hr.
  destruct (has_key r fields); [reflexivity|discriminate Hr].
Qed.

Lemma object_errors_nil (properties : list (string * schema))
    (required : list string) (additional : option schema) (path : list string)
    (v : value) :
  schema_errors (SObject properties required additional) path v = [] ->
  exists fields,
    v = VObj fields /\
    required_errors path required fields = [] /\
    forall k x sk,
      In (k, x) fields -> lookup_key k properties = Some sk ->
      schema_errors sk (path ++ [k]) x = [].
Proof.
  destruct v as [| | | | |fields]; try discriminate.
  cbn [schema_errors]. intros [Hreq Hfields]%app_eq_nil.
  exists fields. split; [reflexivity|]. split; [exact Hreq|].
  intros k x sk Hin Hk.
  pose proof (flat_map_nil_elem _ _ _ Hfields Hin) as Hx.
  cbn in Hx. now rewrite Hk in Hx.
Qed.

Lemma string_errors_nil (path : list string) (v : value) :
  schema_errors (SString None false) path v = [] -> exists s, v = VStr s.
Proof. destruct v; try discriminate. eauto. Qed.

(** The errors of an undeclared property, under [additionalProperties: s],
    are among the object's errors. *)
Lemma schema_errors_additional (properties : list (string * schema))
    (required : list string) (sa : schema) (path : list string)
    (fields : list (string * value)) (k : string) (x : value) (e : verror) :
  In (k, x) fields ->
  lookup_key k properties = None ->
  In e (schema_errors sa (path ++ [k]) x) ->
  In e (schema_errors (SObject properties required (Some sa)) path (VObj fields)).
Proof.
  intros Hin Hk He. simpl. apply in_or_app. right.
  apply in_flat_map. exists (k, x). split; [exact Hin|].
  now rewrite Hk.
Qed.

(** An undeclared property under [additionalProperties: false]. *)
Lemma schema_errors_unknown (properties : list (string * schema))
    (required : list string) (path : list string)
    (fields : list (string * value)) (k : string) (x : value) :
  In (k, x) fields ->
  lookup_key k properties = None ->
  In (VError path (KAdditionalProperties k))
     (schema_errors (SObject properties required None) path (VObj fields)).
Proof.
  intros Hin Hk. simpl. apply in_or_app. right.
  apply in_flat_map. exists (k, x). split; [exact Hin|].
  rewrite Hk. now left.
Qed.

End Validation.

End JsonSchema.

Export JsonSchema.

(** ** Reading YAML

    The configuration files are YAML documents read by the [yaml] package.
    The reader below covers the block-mapping subset the generated templates
    are written in: printable ASCII text, comment lines, [key: value] entries
    nested by indentation, plain scalars made of identifier characters
    (resolved by the YAML 1.2 core schema, the package's default),
    single-quoted scalars, and one-line flow sequences of flow mappings of
    single-quoted strings.  Every other construct is answered with
    [Unsupported], so that [Ok] and [SyntaxError] are only given where the
    YAML grammar decides the text. *)

Module Yaml.

Inductive outcome (A : Type) : Type :=
| Ok (a : A)
| SyntaxError
| Unsupported.
Arguments Ok {A} a.
Arguments SyntaxError {A}.
Arguments Unsupported {A}.

Definition LF : ascii := "010"%char.

Definition in_range (lo hi : nat) (c : ascii) : bool :=
  (lo <=? nat_of_ascii c)%nat && (nat_of_ascii c <=? hi)%nat.

(** Printable ASCII: the space and the visible characters. *)
Definition is_printable (c : ascii) : bool := in_range 32 126 c.

Definition is_digit (c : ascii) : bool := in_range 48 57 c.

Definition is_ident_start (c : ascii) : bool :=
  in_range 65 90 c || in_range 97 122 c || Ascii.eqb c "_".

Definition is_ident_char (c : ascii) : bool := is_ident_start c || is_digit c.

Fixpoint all_chars (p : ascii -> bool) (s : string) : bool :=
  match s with
  | EmptyString => true
  | String c rest => p c && all_chars p rest
  end.

(** The characters of a text the reader accepts: line feeds and printable
    ASCII. *)
Definition text_char (c : ascii) : bool := Ascii.eqb c LF || is_printable c.

Fixpoint split_lines (s : string) : list string :=
  match s with
  | EmptyString => [EmptyString]
  | String c rest =>
      if Ascii.eqb c LF then EmptyString :: split_lines rest
      else match split_lines rest with
           | l :: ls => String c l :: ls
           | [] => [String c EmptyString]
           end
  end.

Fixpoint drop_spaces (s : string) : string :=
  match s with
  | String c rest => if Ascii.eqb c " " then drop_spaces rest else s
  | EmptyString => EmptyString
  end.

(** Number of leading spaces of a line, and the text after them. *)
Fixpoint count_indent (s : string) : nat * string :=
  match s with
  | String c rest =>
      if Ascii.eqb c " "
      then (S (fst (count_indent rest)), snd (count_indent rest))
      else (0%nat, s)
  | EmptyString => (0%nat, EmptyString)
  end.

(** A key of identifier characters up to the first colon, and the text after
    the colon.  The package resolves keys as it does values; the reader
    keeps to the keys that are read as the strings they are (see
    [classify]). *)
Fixpoint split_key (s : string) : option (string * string) :=
  match s with
  | EmptyString => None
  | String c rest =>
      if Ascii.eqb c ":" then Some (EmptyString, rest)
      else if is_ident_char c then
        match split_key rest with
        | Some (k, t) => Some (String c k, t)
        | None => None
        end
      else None
  end.

(** The inside of a single-quoted scalar, from after the opening quote: the
    content (a doubled quote stands for one quote) and the text after the
    closing quote; [None] when the line ends before the scalar does. *)
Fixpoint scan_single (s : string) : option (string * string) :=
  match s with
  | EmptyString => None
  | String c rest =>
      if Ascii.eqb c "'" then
        match rest with
        | String c2 rest2 =>
            if Ascii.eqb c2 "'" then
              match scan_single rest2 with
              | Some (content, tail) => Some (String "'" content, tail)
              | None => None
              end
            else Some (EmptyString, rest)
        | EmptyString => Some (EmptyString, EmptyString)
        end
      else
        match scan_single rest with
        | Some (content, tail) => Some (String c content, tail)
        | None => None
        end
  end.

(** What may follow a complete scalar on its line: blanks, or blanks and a
    comment. *)
Definition blank_or_comment (tail : string) : bool :=
  match drop_spaces tail with
  | EmptyString => true
  | String c _ =>
      Ascii.eqb c "#" &&
      match tail with String c0 _ => Ascii.eqb c0 " " | EmptyString => false end
  end.

Fixpoint decimal_acc (acc : Z) (s : string) : Z :=
  match s with
  | EmptyString => acc
  | String c rest => decimal_acc (10 * acc + Z.of_nat (nat_of_ascii c - 48)) rest
  end.

Definition member (s : string) (l : list string) : bool := existsb (String.eqb s) l.

Fixpoint distinct (l : list string) : bool :=
  match l with
  | [] => true
  | x :: rest => negb (member x rest) && distinct rest
  end.

(** The core schema's tags for a plain scalar of identifier characters. *)
Definition resolve_plain (s : string) : option value :=
  match s with
  | EmptyString => None
  | String c _ =>
      if negb (all_chars is_ident_char s) then None
      else if is_digit c then
        if all_chars is_digit s then Some (VNum (decimal_acc 0 s)) else None
      else if member s ["null"; "Null"; "NULL"]%string then Some VNull
      else if member s ["true"; "True"; "TRUE"]%string then Some (VBool true)
      else if member s ["false"; "False"; "FALSE"]%string then Some (VBool false)
      else Some (VStr s)
  end.

(** A flow sequence of flow mappings of single-quoted strings, on one
    line, as in [[{a: 'x', b: 'y'}, {a: 'z'}]]: the fields of a mapping from
    after its opening brace, and the text after its closing brace.  The fuel
    bounds the length of the text. *)
Fixpoint flow_fields (fuel : nat) (s : string) : option (list (string * value) * string) :=
  match fuel with
  | O => None
  | S fuel' =>
      match split_key s with
      | Some (k, String " " (String "'" r)) =>
          match resolve_plain k, scan_single r with
          | Some (VStr _), Some (content, String "}" rest) =>
              Some ([(k, VStr content)], rest)
          | Some (VStr _), Some (content, String "," (String " " rest)) =>
              match flow_fields fuel' rest with
              | Some (fields, rest') => Some ((k, VStr content) :: fields, rest')
              | None => None
              end
          | _, _ => None
          end
      | _ => None
      end
  end.

(** The mappings of a sequence from its first opening brace, and the text
    after the closing bracket. *)
Fixpoint flow_records (fuel : nat) (s : string) : option (list value * string) :=
  match fuel with
  | O => None
  | S fuel' =>
      match s with
      | String "{" r =>
          match flow_fields fuel' r with
          | Some (fields, tail) =>
              if distinct (map fst fields) then
                match tail with
                | String "]" rest => Some ([VObj fields], rest)
                | String "," (String " " rest) =>
                    match flow_records fuel' rest with
                    | Some (records, rest') => Some (VObj fields :: records, rest')
                    | None => None
                    end
                | _ => None
                end
              else None
          | None => None
          end
      | _ => None
      end
  end.

(** A sequence from after its opening bracket. *)
Definition flow_sequence (s : string) : option (list value * string) :=
  match s with
  | String "]" rest => Some ([], rest)
  | _ => flow_records (String.length s) s
  end.

Inductive line : Type :=
| LSkip
| LEntry (indent : nat) (key : string) (val : option value)
| LError
| LUnsupported.

(** The entry [key:] followed by [r] on a line indented by [n]. *)
Definition entry_of (n : nat) (k : string) (r : string) : line :=
  match r with
  | EmptyString => LEntry n k None
  | String c0 _ =>
      if negb (Ascii.eqb c0 " ") then LUnsupported
      else
        match drop_spaces r with
        | EmptyString => LEntry n k None
        | String c rest =>
            if Ascii.eqb c "#" then LEntry n k None
            else if Ascii.eqb c "'" then
              match scan_single rest with
              | None => LUnsupported
              | Some (content, tail) =>
                  if blank_or_comment tail
                  then LEntry n k (Some (VStr content))
                  else LError
              end
            else
              match resolve_plain (String c rest) with
              | Some v => LEntry n k (Some v)
              | None =>
                  if Ascii.eqb c "[" then
                    match flow_sequence rest with
                    | Some (records, tail) =>
                        if blank_or_comment tail
                        then LEntry n k (Some (VArr records))
                        else LUnsupported
                    | None => LUnsupported
                    end
                  else LUnsupported
              end
        end
  end.

Definition classify (l : string) : line :=
  match snd (count_indent l) with
  | EmptyString => LSkip
  | String c rest =>
      if Ascii.eqb c "#" then LSkip
      else
        match split_key (String c rest) with
        | Some (EmptyString, _) => LUnsupported
        | Some (k, r) =>
            match resolve_plain k with
            | Some (VStr _) => entry_of (fst (count_indent l)) k r
            | _ => LUnsupported
            end
        | None => LUnsupported
        end
  end.

(** An entry with its indentation. *)
Definition item : Type := nat * (string * value).

Fixpoint deeper_prefix (n : nat) (below : list item) : list item :=
  match below with
  | it :: rest => if (n <? fst it)%nat then it :: deeper_prefix n rest else []
  | [] => []
  end.

Fixpoint after_deeper (n : nat) (below : list item) : list item :=
  match below with
  | it :: rest => if (n <? fst it)%nat then after_deeper n rest else below
  | [] => []
  end.

(** The entries of one mapping: same indentation, distinct keys. *)
Definition same_block (items : list item) : bool :=
  match items with
  | [] => true
  | (j, _) :: _ =>
      forallb (fun it => (fst it =? j)%nat) items && distinct (map (fun it => fst (snd it)) items)
  end.

(** Put the entry [(n, k, ov)] before the entries [below] that follow it in
    the text: the more indented entries right after it are its mapping. *)
Definition add_entry (n : nat) (k : string) (ov : option value) (below : list item)
  : outcome (list item) :=
  match ov, deeper_prefix n below with
  | Some v, [] => Ok ((n, (k, v)) :: below)
  | Some _, _ :: _ => Unsupported
  | None, [] => Ok ((n, (k, VNull)) :: below)
  | None, (inner0 :: _) as inner =>
      if same_block inner
      then Ok ((n, (k, VObj (map snd inner))) :: after_deeper n below)
      else Unsupported
  end.

Fixpoint build (ls : list line) : outcome (list item) :=
  match ls with
  | [] => Ok []
  | l :: rest =>
      match build rest with
      | Ok below =>
          match l with
          | LSkip => Ok below
          | LEntry n k ov => add_entry n k ov below
          | LError => SyntaxError
          | LUnsupported => Unsupported
          end
      | other => other
      end
  end.

Definition is_unsupported (l : line) : bool :=
  match l with LUnsupported => true | _ => false end.

Definition is_error (l : line) : bool :=
  match l with LError => true | _ => false end.

Definition finish (items : list item) : outcome value :=
  match items with
  | [] => Ok VNull
  | _ :: _ => if same_block items then Ok (VObj (map snd items)) else Unsupported
  end.

Definition parse (text : string) : outcome value :=
  if negb (all_chars text_char text) then Unsupported
  else
    let ls := map classify (split_lines text) in
    if existsb is_unsupported ls then Unsupported
    else if existsb is_error ls then SyntaxError
    else
      match build ls with
      | Ok items => finish items
      | SyntaxError => SyntaxError
      | Unsupported => Unsupported
      end.

(** Lines joined into a text, each closed by a line feed. *)
Fixpoint unlines (ls : list string) : string :=
  match ls with
  | [] => EmptyString
  | l :: rest => l +:+ String LF (unlines rest)
  end.

(** *** Facts about the reader *)

(** Characters allowed inside a line. *)
Definition inline_char (c : ascii) : bool := is_printable c.

(** Characters a single-quoted scalar holds as they are. *)
Definition quotable_char (c : ascii) : bool := inline_char c && negb (Ascii.eqb c "'").

(** A plain scalar the core schema reads as the string it is: identifier
    characters, not starting with a digit, none of the words for null and
    the booleans. *)
Definition is_plain_name (s : string) : bool :=
  match s with
  | EmptyString => false
  | String c _ =>
      is_ident_start c && all_chars is_ident_char s
      && negb (member s ["null"; "Null"; "NULL"; "true"; "True"; "TRUE";
                          "false"; "False"; "FALSE"]%string)
  end.

Lemma all_chars_app (p : ascii -> bool) (a b : string) :
  all_chars p (a +:+ b) = all_chars p a && all_chars p b.
Proof.
  induction a as [|c a IH]; simpl; [reflexivity|].
  now rewrite IH, andb_assoc.
Qed.

Lemma all_chars_impl (p q : ascii -> bool) (s : string) :
  (forall c, p c = true -> q c = true) ->
  all_chars p s = true -> all_chars q s = true.
Proof.
  intros Hpq. induction s as [|c s IH]; simpl; [reflexivity|].
  intros [Hc Hs]%andb_prop. now rewrite (Hpq c Hc), IH.
Qed.

Lemma ident_start_facts (c : ascii) :
  is_ident_start c = true ->
  Ascii.eqb c " " = false /\ Ascii.eqb c "#" = false /\
  Ascii.eqb c "'" = false /\ is_digit c = false.
Proof.
  destruct c as [b0 b1 b2 b3 b4 b5 b6 b7]. revert b0 b1 b2 b3 b4 b5 b6 b7.
  intros [] [] [] [] [] [] [] []; vm_compute; intros H;
    solve [discriminate H | easy].
Qed.

Lemma ident_char_inline (c : ascii) : is_ident_char c = true -> inline_char c = true.
Proof.
  destruct c as [b0 b1 b2 b3 b4 b5 b6 b7]. revert b0 b1 b2 b3 b4 b5 b6 b7.
  intros [] [] [] [] [] [] [] []; vm_compute; intros H;
    solve [discriminate H | reflexivity].
Qed.

Lemma inline_char_text (c : ascii) : inline_char c = true -> text_char c = true.
Proof. unfold text_char, inline_char. intros ->. apply orb_true_r. Qed.

Lemma inline_char_not_LF (c : ascii) : inline_char c = true -> Ascii.eqb c LF = false.
Proof.
  destruct c as [b0 b1 b2 b3 b4 b5 b6 b7]. revert b0 b1 b2 b3 b4 b5 b6 b7.
  intros [] [] [] [] [] [] [] []; vm_compute; intros H;
    solve [discriminate H | reflexivity].
Qed.

Lemma split_lines_line (l rest : string) :
  all_chars inline_char l = true ->
  split_lines (l +:+ String LF rest) = l :: split_lines rest.
Proof.
  induction l as [|c l IH]; simpl.
  - reflexivity.
  - intros [Hc Hl]%andb_prop.
    rewrite (inline_char_not_LF c Hc), (IH Hl). reflexivity.
Qed.

Lemma split_lines_unlines (ls : list string) :
  forallb (all_chars inline_char) ls = true ->
  split_lines (unlines ls) = ls ++ [EmptyString].
Proof.
  induction ls as [|l ls IH]; simpl; [reflexivity|].
  intros [Hl Hls]%andb_prop.
  now rewrite (split_lines_line _ _ Hl), (IH Hls).
Qed.

Lemma all_chars_unlines (ls : list string) :
  forallb (all_chars inline_char) ls = true ->
  all_chars text_char (unlines ls) = true.
Proof.
  induction ls as [|l ls IH]; simpl; [reflexivity|].
  intros [Hl Hls]%andb_prop.
  rewrite all_chars_app. simpl.
  rewrite (all_chars_impl _ _ _ inline_char_text Hl), (IH Hls). reflexivity.
Qed.

Lemma resolve_plain_name (s : string) :
  is_plain_name s = true -> resolve_plain s = Some (VStr s).
Proof.
  destruct s as [|c s]; [discriminate|].
  unfold is_plain_name, resolve_plain.
  intros [[Hc Hall]%andb_prop Hres]%andb_prop.
  destruct (ident_start_facts c Hc) as (_ & _ & _ & Hd).
  rewrite Hall, Hd. simpl negb.
  apply negb_true_iff in Hres.
  cbn [member existsb] in *.
  repeat (apply orb_false_elim in Hres; destruct Hres as [? Hres]).
  repeat match goal with H : String.eqb _ _ = false |- _ => rewrite H; clear H end.
  reflexivity.
Qed.

Lemma drop_spaces_name (s : string) :
  is_plain_name s = true -> drop_spaces (String " " s) = s.
Proof.
  destruct s as [|c s]; [discriminate|].
  unfold is_plain_name. intros [[Hc _]%andb_prop _]%andb_prop.
  destruct (ident_start_facts c Hc) as (Hsp & _).
  cbn. now rewrite Hsp.
Qed.

(** An entry whose value is a plain name. *)
Lemma entry_of_plain_name (n : nat) (k s : string) :
  is_plain_name s = true ->
  entry_of n k (String " " s) = LEntry n k (Some (VStr s)).
Proof.
  intros H. unfold entry_of.
  change (Ascii.eqb " " " ") with true. cbn [negb].
  rewrite (drop_spaces_name s H).
  pose proof (resolve_plain_name s H) as Hr.
  destruct s as [|c s]; [discriminate|].
  unfold is_plain_name in H. apply andb_prop in H as [[Hc _]%andb_prop _].
  destruct (ident_start_facts c Hc) as (_ & Hh & Hq & _).
  now rewrite Hh, Hq, Hr.
Qed.

Lemma scan_single_closed (s : string) :
  all_chars quotable_char s = true ->
  scan_single (s +:+ "'") = Some (s, EmptyString).
Proof.
  induction s as [|c s IH]; simpl; [reflexivity|].
  intros [[_ Hq]%andb_prop Hs]%andb_prop.
  apply negb_true_iff in Hq. now rewrite Hq, (IH Hs).
Qed.

(** An entry whose value is a single-quoted scalar free of quotes. *)
Lemma entry_of_quoted (n : nat) (k s : string) :
  all_chars quotable_char s = true ->
  entry_of n k (String " " (String "'" (s +:+ "'"))) = LEntry n k (Some (VStr s)).
Proof.
  intros H. unfold entry_of. cbn. now rewrite (scan_single_closed s H).
Qed.

Lemma quotable_inline (s : string) :
  all_chars quotable_char s = true -> all_chars inline_char s = true.
Proof.
  apply all_chars_impl. unfold quotable_char. now intros c [? _]%andb_prop.
Qed.

Lemma plain_name_inline (s : string) :
  is_plain_name s = true -> all_chars inline_char s = true.
Proof.
  destruct s as [|c s]; [discriminate|]. unfold is_plain_name.
  intros [[_ Hall]%andb_prop _]%andb_prop.
  revert Hall. apply all_chars_impl, ident_char_inline.
Qed.

(** *** Plain scalars that are not strings *)

(** A name the core schema reads as a number, a boolean or null: digits
    only, or one of the words for null and the booleans. *)
Definition is_non_string_name (s : string) : bool :=
  match s with
  | EmptyString => false
  | String _ _ =>
      all_chars is_digit s
      || member s ["null"; "Null"; "NULL"; "true"; "True"; "TRUE";
                   "false"; "False"; "FALSE"]%string
  end.

Definition is_scalar_non_string (v : value) : bool :=
  match v with
  | VNull | VBool _ | VNum _ => true
  | _ => false
  end.

Lemma digit_facts (c : ascii) :
  is_digit c = true ->
  Ascii.eqb c " " = false /\ Ascii.eqb c "#" = false /\
  Ascii.eqb c "'" = false /\ is_ident_char c = true.
Proof.
  destruct c as [b0 b1 b2 b3 b4 b5 b6 b7]. revert b0 b1 b2 b3 b4 b5 b6 b7.
  intros [] [] [] [] [] [] [] []; vm_compute; intros H;
    solve [discriminate H | easy].
Qed.

Lemma entry_of_number (n : nat) (k s : string) :
  s <> EmptyString -> all_chars is_digit s = true ->
  entry_of n k (String " " s) = LEntry n k (Some (VNum (decimal_acc 0 s))).
Proof.
  intros Hne Hd. destruct s as [|c s]; [congruence|].
  pose proof Hd as Hall. cbn [all_chars] in Hd.
  apply andb_prop in Hd as [Hc _].
  destruct (digit_facts c Hc) as (Hsp & Hh & Hq & _).
  unfold entry_of. change (Ascii.eqb " " " ") with true. cbn [negb].
  cbn [drop_spaces]. change (Ascii.eqb " " " ") with true. cbv iota.
  cbn [drop_spaces]. rewrite Hsp, Hh, Hq.
  unfold resolve_plain.
  rewrite (all_chars_impl is_digit is_ident_char _
             (fun c' H => proj2 (proj2 (proj2 (digit_facts c' H)))) Hall).
  cbn [negb]. now rewrite Hc, Hall.
Qed.

Lemma entry_of_non_string (n : nat) (k s : string) :
  is_non_string_name s = true ->
  exists v,
    entry_of n k (String " " s) = LEntry n k (Some v) /\
    is_scalar_non_string v = true /\
    all_chars inline_char s = true.
Proof.
  intros H. destruct s as [|c s]; [discriminate|].
  unfold is_non_string_name in H. apply orb_prop in H as [Hd|Hw].
  - exists (VNum (decimal_acc 0 (String c s))).
    split; [now apply entry_of_number|]. split; [reflexivity|].
    revert Hd. apply all_chars_impl. intros c' Hc'.
    apply ident_char_inline. now apply digit_facts.
  - cbn [member existsb] in Hw.
    repeat (apply orb_prop in Hw as [Hw|Hw];
            [apply String.eqb_eq in Hw; rewrite Hw;
             eexists; vm_compute; repeat split|]).
    discriminate Hw.
Qed.

(** *** Writing YAML

    A writer for the reader's subset: block mappings nested by two spaces,
    every string between single quotes, numbers in decimal, lists of
    records on one line in flow style.  It stands for
    the package's [stringify] where a text is needed; the package's own
    output differs in its choice of quotes. *)

Fixpoint spaces (n : nat) : string :=
  match n with
  | O => EmptyString
  | S m => String " " (spaces m)
  end.

Definition digit_char (d : Z) : ascii := ascii_of_nat (48 + Z.to_nat d).

Fixpoint digits_acc (fuel : nat) (n : Z) (acc : string) : string :=
  match fuel with
  | O => acc
  | S f =>
      if n <? 10 then String (digit_char n) acc
      else digits_acc f (n / 10) (String (digit_char (n mod 10)) acc)
  end.

(** The decimal digits of a number that is not negative. *)
Definition decimal (n : Z) : string := digits_acc (S (Z.to_nat n)) n EmptyString.

(** The inside of a single-quoted scalar: quotes doubled. *)
Fixpoint quoted (s : string) : string :=
  match s with
  | EmptyString => EmptyString
  | String c rest =>
      if Ascii.eqb c "'" then String "'" (String "'" (quoted rest))
      else String c (quoted rest)
  end.

(** The fields of a record in flow style, closed by a brace and followed by
    [tail]. *)
Fixpoint fields_text (fields : list (string * value)) (tail : string) : string :=
  match fields with
  | [] => tail
  | (k, x) :: rest =>
      k +:+ ": '" +:+ quoted (match x with VStr s => s | _ => EmptyString end) +:+
      match rest with
      | [] => "'}" +:+ tail
      | _ :: _ => "', " +:+ fields_text rest tail
      end
  end.

(** The records of a list in flow style, closed by a bracket and followed
    by [tail]. *)
Fixpoint records_text (records : list value) (tail : string) : string :=
  match records with
  | [] => tail
  | r :: rest =>
      "{" +:+
      fields_text (match r with VObj fields => fields | _ => [] end)
        match rest with
        | [] => "]" +:+ tail
        | _ :: _ => ", " +:+ records_text rest tail
        end
  end.

Definition flow_text (records : list value) : string :=
  "[" +:+ match records with
          | [] => "]"
          | _ :: _ => records_text records EmptyString
          end.

Definition scalar_text (v : value) : string :=
  match v with
  | VStr s => "'" +:+ quoted s +:+ "'"
  | VNum n => decimal n
  | VBool true => "true"
  | VBool false => "false"
  | VArr records => flow_text records
  | _ => "null"
  end.


(** The lines of the fields of an object, indented by [indent]. *)
Fixpoint lines_of (indent : nat) (v : value) {struct v} : list string :=
  match v with
  | VObj fields =>
      flat_map
        (fun kx : string * value =>
           match snd kx with
           | VObj _ => (spaces indent +:+ fst kx +:+ ":") :: lines_of (indent + 2) (snd kx)
           | x => [spaces indent +:+ fst kx +:+ ": " +:+ scalar_text x]
           end)
        fields
  | _ => []
  end.

Definition stringify (v : value) : string := unlines (lines_of 0 v).





(** **** How the reader takes a written line *)






(** **** Lists of records *)












(** The entries the written lines are read as. *)
Fixpoint entries (n : nat) (v : value) {struct v} : list line :=
  match v with
  | VObj fields =>
      flat_map
        (fun kx : string * value =>
           match snd kx with
           | VObj _ => LEntry n (fst kx) None :: entries (n + 2) (snd kx)
           | x => [LEntry n (fst kx) (Some x)]
           end)
        fields
  | _ => []
  end.




(** **** How the reader puts the entries together *)











End Yaml.

(** ** The command's world: files, process state, output *)

Module Runtime.

Inductive node : Type :=
| File (content : string)
| Dir.

(** What a command can observe and change.  Paths are absolute, normalised
    strings with [/] as separator. *)
Record World : Type := mkWorld {
  files : gmap string node;
  projectRootDir : string;          (* the module variable of paths.ts *)
  events : list string;             (* analytics events sent *)
  output : list string              (* lines logged or warned *)
}.

Definition with_files (f : gmap string node) (w : World) : World :=
  mkWorld f (projectRootDir w) (events w) (output w).

(** Why a command stopped. *)
Inductive config_error : Type :=
| ParseError
| VersionMismatch (declared : option Z)
| SchemaValidationError (errors : list verror)
| SemanticValidationError (message : string).

Inductive failure : Type :=
| CommandError (message : string)                  (* commandObj.error *)
| ConfigError (path : string) (e : config_error)   (* raised by the config engine *)
| SystemError (code : string) (path : string).     (* a failed file system call *)

Inductive result (A : Type) : Type :=
| Returned (a : A)
| Thrown (f : failure).
Arguments Returned {A} a.
Arguments Thrown {A} f.

(** An awaited computation: it reads and changes the world and returns or
    throws.  A throw keeps the changes made before it. *)
Definition M (A : Type) : Type := World -> result A * World.

Definition ret {A : Type} (a : A) : M A := fun w => (Returned a, w).

Definition bind {A B : Type} (k : A -> M B) (m : M A) : M B :=
  fun w =>
    match m w with
    | (Returned a, w') => k a w'
    | (Thrown f, w') => (Thrown f, w')
    end.

Definition throw {A : Type} (f : failure) : M A := fun w => (Thrown f, w).

#[global] Instance M_ret : MRet M := @ret.
#[global] Instance M_bind : MBind M := @bind.

Definition get_world : M World := fun w => (Returned w, w).

(** *** node:fs *)

Definition existsSync (p : string) (w : World) : bool :=
  match files w !! p with Some _ => true | None => false end.

Definition stat (p : string) : M node :=
  fun w =>
    match files w !! p with
    | Some n => (Returned n, w)
    | None => (Thrown (SystemError "ENOENT" p), w)
    end.

Definition isDirectory (n : node) : bool :=
  match n with Dir => true | File _ => false end.

(** [strip_prefix p k] is what follows [p] in [k]. *)
Fixpoint strip_prefix (p k : string) : option string :=
  match p, k with
  | EmptyString, _ => Some k
  | String a p', String b k' => if Ascii.eqb a b then strip_prefix p' k' else None
  | String _ _, EmptyString => None
  end.

Fixpoint has_slash (s : string) : bool :=
  match s with
  | EmptyString => false
  | String c rest => Ascii.eqb c "/" || has_slash rest
  end.

(** What the paths of the entries of the directory [p] start with: the root
    is the one directory whose path ends with the separator. *)
Definition dir_prefix (p : string) : string :=
  if String.eqb p "/" then p else p +:+ "/".

(** The name under which [k] is an entry of the directory [p], if it is one. *)
Definition entry_name (p k : string) : option string :=
  match strip_prefix (dir_prefix p) k with
  | Some EmptyString => None
  | Some name => if has_slash name then None else Some name
  | None => None
  end.

Definition entries_of (f : gmap string node) (p : string) : list string :=
  omap (fun kn => entry_name p (fst kn)) (map_to_list f).

(** [readdir(p)].  A directory that cannot be read (permissions) is not
    modelled. *)
Definition readdir (p : string) : M (list string) :=
  fun w =>
    match files w !! p with
    | Some Dir => (Returned (entries_of (files w) p), w)
    | Some (File _) => (Thrown (SystemError "ENOTDIR" p), w)
    | None => (Thrown (SystemError "ENOENT" p), w)
    end.

(** The proper prefixes of a path that end before a separator. *)
Fixpoint parents (s : string) : list string :=
  match s with
  | EmptyString => []
  | String c rest =>
      let ps := map (String c) (parents rest) in
      if Ascii.eqb c "/" then EmptyString :: ps else ps
  end.

Definition ensure_dir (acc : option (gmap string node)) (p : string)
  : option (gmap string node) :=
  match acc with
  | None => None
  | Some f =>
      match p with
      | EmptyString => Some f
      | _ =>
          match f !! p with
          | None => Some (<[p := Dir]> f)
          | Some Dir => Some f
          | Some (File _) => None
          end
      end
  end.

(** [mkdir(p, { recursive: true })]: fails with EEXIST when [p] is a file,
    and with ENOTDIR when a directory above it is one. *)
Definition mkdir_recursive (p : string) : M unit :=
  fun w =>
    match fold_left ensure_dir (parents p ++ [p]) (Some (files w)) with
    | Some f => (Returned tt, with_files f w)
    | None =>
        match files w !! p with
        | Some (File _) => (Thrown (SystemError "EEXIST" p), w)
        | _ => (Thrown (SystemError "ENOTDIR" p), w)
        end
    end.

Definition readFile (f : gmap string node) (p : string) : option string :=
  match f !! p with
  | Some (File text) => Some text
  | _ => None
  end.

(** [writeFile(p, text)]: creates or overwrites the file.  Failing writes
    (permissions, a missing parent directory) are not modelled. *)
Definition writeFile (p : string) (text : string) : M unit :=
  fun w => (Returned tt, with_files (<[p := File text]> (files w)) w).

(** *** commandObj and analytics *)

Definition commandObj_error {A : Type} (message : string) : M A :=
  throw (CommandError message).

Definition commandObj_log (message : string) : M unit :=
  fun w => (Returned tt, mkWorld (files w) (projectRootDir w) (events w) (output w ++ [message])).

Definition Countly_add_event (key : string) : M unit :=
  fun w => (Returned tt, mkWorld (files w) (projectRootDir w) (events w ++ [key]) (output w)).

Definition setProjectRootDir (p : string) : M unit :=
  fun w => (Returned tt, mkWorld (files w) p (events w) (output w)).

(** Unfolding one step of a computation. *)
Lemma run_bind {A B : Type} (m : M A) (k : A -> M B) (w : World) :
  (m ≫= k) w =
  match m w with
  | (Returned a, w') => k a w'
  | (Thrown f, w') => (Thrown f, w')
  end.
Proof. reflexivity. Qed.

Lemma run_ret {A : Type} (a : A) (w : World) : (mret a : M A) w = (Returned a, w).
Proof. reflexivity. Qed.

Lemma readFile_writeFile (p text : string) (w : World) :
  readFile (files (snd (writeFile p text w))) p = Some text.
Proof. unfold readFile, writeFile. simpl. now rewrite lookup_insert_eq. Qed.

(** [commandObj.warn]: a line on the same output. *)
Definition commandObj_warn (message : string) : M unit := commandObj_log message.

(** *** Creating a directory where a file is *)

Lemma parents_shorter (p q : string) :
  In q (parents p) -> (String.length q < String.length p)%nat.
Proof.
  revert q. induction p as [|c p IH]; intros q; simpl; [intros []|].
  assert (Hmap : In q (map (String c) (parents p)) ->
                 (String.length q < S (String.length p))%nat).
  { intros Hin. apply in_map_iff in Hin as (q' & <- & Hq').
    simpl. specialize (IH q' Hq'). lia. }
  destruct (Ascii.eqb c "/"); [|exact Hmap].
  intros [<-|Hin]; [simpl; lia|now apply Hmap].
Qed.

Lemma ensure_dir_none (l : list string) : fold_left ensure_dir l None = None.
Proof. induction l; [reflexivity|exact IHl]. Qed.

(** Creating other directories leaves a file where it is. *)
Lemma ensure_dirs_keep_file (l : list string) (f : gmap string node)
    (p content : string) :
  Forall (fun q => q <> p) l ->
  f !! p = Some (File content) ->
  match fold_left ensure_dir l (Some f) with
  | Some f' => f' !! p = Some (File content)
  | None => True
  end.
Proof.
  revert f. induction l as [|q l IH]; intros f Hne Hf; simpl; [exact Hf|].
  inversion Hne as [|? ? Hq Hl]; subst.
  destruct q as [|c q]; [now apply IH|].
  destruct (f !! String c q) as [[content'|]|] eqn:E.
  - now rewrite ensure_dir_none.
  - now apply IH.
  - apply IH; [exact Hl|]. now rewrite lookup_insert_ne.
Qed.

Lemma mkdir_recursive_on_file (p content : string) (w : World) :
  p <> EmptyString ->
  files w !! p = Some (File content) ->
  mkdir_recursive p w = (Thrown (SystemError "EEXIST" p), w).
Proof.
  intros Hne Hf. unfold mkdir_recursive. rewrite fold_left_app.
  assert (Hparents : Forall (fun q => q <> p) (parents p)).
  { apply Forall_forall. intros q Hq ->.
    apply list_elem_of_In, parents_shorter in Hq. lia. }
  pose proof (ensure_dirs_keep_file _ _ _ _ Hparents Hf) as Hkeep.
  destruct (fold_left ensure_dir (parents p) (Some (files w))) as [f'|];
    [|simpl; now rewrite Hf].
  simpl. destruct p as [|c p]; [congruence|]. now rewrite Hkeep, Hf.
Qed.

End Runtime.

Export Runtime.

(** ** The versioned configuration engine ([initConfig.ts])

    service.ts imports [getConfigInitFunction], [getReadonlyConfigInitFunction]
    and the types of their arguments and results from initConfig.ts, which is
    not among the sources.  The engine below follows the specification's
    description of it (components 4.2 to 4.5). *)

Module InitConfig.

(** Modelled from the spec: the result [true | string] of a validator
    (4.3). *)
Inductive validity : Type :=
| Valid
| Invalid (message : string).

(** Modelled from the spec: the kind descriptor (data model, ConfigKind),
    with the fields service.ts fills in. *)
Record InitConfigOptions : Type := mkOptions {
  allSchemas : list schema;
  latestSchema : schema;
  migrations : list (value -> value);
  name : string;
  getSchemaDirPath : string;
  getConfigOrConfigDirPath : string;
  validate : option (list (string * value) -> validity)
}.

(** Modelled from the spec: a read-only handle (data model, ConfigHandle):
    the validated latest-version config and its path. *)
Record InitializedReadonlyConfig : Type := mkReadonly {
  ro_config : list (string * value);
  ro_path : string
}.

(** Modelled from the spec: a mutable handle: the same, with the latest
    version its [$commit] writes. *)
Record InitializedConfig : Type := mkConfig {
  config : list (string * value);
  config_path : string;
  config_latest : Z
}.

(** Modelled from the spec: field mutation on a mutable handle,
    [config.k = x]. *)
Definition assign (k : string) (x : value) (h : InitializedConfig) : InitializedConfig :=
  mkConfig (js_assign (config h) k x) (config_path h) (config_latest h).

Section Engine.

Variable regexTest : string -> string -> bool.

(** The text format's reader and writer, and the location rule. *)
Variable parse : string -> option value.
Variable stringify : value -> string.
Variable getConfigPath : string -> string -> string.

(** Modelled from the spec: the latest version of a kind is the highest of
    its schema versions 0, 1, 2, ... (data model, SchemaVersion). *)
Definition latestVersion (o : InitConfigOptions) : Z :=
  Z.of_nat (length (allSchemas o)) - 1.

(** Modelled from the spec: the declared version is the integer [version]
    field embedded in the document (external interfaces). *)
Definition declaredVersion (doc : value) : option Z :=
  match get_field "version" doc with
  | Some (VNum n) => Some n
  | _ => None
  end.

(** Modelled from the spec: the registry's schema for a version (4.1). *)
Definition schemaOf (o : InitConfigOptions) (v : Z) : option schema :=
  if 0 <=? v then allSchemas o !! Z.to_nat v else None.

(** Modelled from the spec: the migration chain applied from the declared
    version until the latest is reached, migration [k] taking version [k] to
    [k + 1]; at the latest version nothing is applied (4.2). *)
Definition migrateToLatest (o : InitConfigOptions) (doc : value) (fromVersion : Z) : value :=
  fold_left (fun d (m : value -> value) => m d)
    (take (Z.to_nat (latestVersion o - fromVersion))
          (drop (Z.to_nat fromVersion) (migrations o)))
    doc.

(** Modelled from the spec: the validator (4.3): structural conformance to
    the latest schema, then the kind's semantic check, which runs only after
    structural validation has passed. *)
Definition validateLatest (o : InitConfigOptions) (doc : value)
  : config_error + list (string * value) :=
  match schema_errors regexTest (latestSchema o) [] doc with
  | [] =>
      match doc with
      | VObj fields =>
          match validate o with
          | Some check =>
              match check fields with
              | Valid => inr fields
              | Invalid message => inl (SemanticValidationError message)
              end
          | None => inr fields
          end
      | _ => inl (SchemaValidationError [VError [] KType])
      end
  | errors => inl (SchemaValidationError errors)
  end.

(** Modelled from the spec: the loader's pipeline on a file's content (4.5):
    parse, read the declared version, migrate to latest, validate.  A
    declared version without a schema in the registry is a VersionMismatch
    (4.2); so is a document that declares no integer version, for which no
    schema can be selected. *)
Definition resolveDocument (o : InitConfigOptions) (text : string)
  : config_error + list (string * value) :=
  match parse text with
  | None => inl ParseError
  | Some doc =>
      match declaredVersion doc with
      | None => inl (VersionMismatch None)
      | Some v =>
          match schemaOf o v with
          | None => inl (VersionMismatch (Some v))
          | Some _ => validateLatest o (migrateToLatest o doc v)
          end
      end
  end.

(** Modelled from the spec: the concrete file path of a kind at a location
    (4.5), by the location rule. *)
Definition configPathOf (o : InitConfigOptions) : string :=
  getConfigPath (getConfigOrConfigDirPath o) (name o).

(** Modelled from the spec: locating the content (4.5): the file's, or, when
    the file is absent and a default generator is given, the generated
    template, written first; [None] when there is neither. *)
Definition locateContent (o : InitConfigOptions) (getDefaultConfig : option string)
  : M (option string) :=
  w ← get_world;
  match readFile (files w) (configPathOf o) with
  | Some text => mret (Some text)
  | None =>
      match getDefaultConfig with
      | Some text => writeFile (configPathOf o) text ;; mret (Some text)
      | None => mret None
      end
  end.

(** Modelled from the spec: [open] in read-only mode (4.5).  The result is
    [null] ([None]) when the file is not found, as the signatures in
    service.ts have it. *)
Definition getReadonlyConfigInitFunction (o : InitConfigOptions)
    (getDefaultConfig : option string) : M (option InitializedReadonlyConfig) :=
  content ← locateContent o getDefaultConfig;
  match content with
  | None => mret None
  | Some text =>
      match resolveDocument o text with
      | inl e => throw (ConfigError (configPathOf o) e)
      | inr fields => mret (Some (mkReadonly fields (configPathOf o)))
      end
  end.

(** Modelled from the spec: [open] in mutable mode (4.5): the same pipeline,
    the handle also carrying what [$commit] needs. *)
Definition getConfigInitFunction (o : InitConfigOptions)
    (getDefaultConfig : option string) : M (option InitializedConfig) :=
  readonly ← getReadonlyConfigInitFunction o getDefaultConfig;
  match readonly with
  | None => mret None
  | Some r => mret (Some (mkConfig (ro_config r) (ro_path r) (latestVersion o)))
  end.

(** Modelled from the spec: what [$commit] serializes: the in-memory value
    with its version forced to latest (4.5). *)
Definition committedDocument (h : InitializedConfig) : value :=
  VObj (js_assign (config h) "version" (VNum (config_latest h))).

(** Modelled from the spec: [$commit] overwrites the handle's file with the
    serialized value (4.5). *)
Definition commit (h : InitializedConfig) : M unit :=
  writeFile (config_path h) (stringify (committedDocument h)).

(** *** Facts about the engine *)


Lemma migrateToLatest_at_latest (o : InitConfigOptions) (doc : value) :
  migrateToLatest o doc (latestVersion o) = doc.
Proof. unfold migrateToLatest. now rewrite Z.sub_diag. Qed.

Lemma migrateToLatest_no_migrations (o : InitConfigOptions) (doc : value) (v : Z) :
  migrations o = [] -> migrateToLatest o doc v = doc.
Proof.
  unfold migrateToLatest. intros ->.
  now rewrite drop_nil, take_nil.
Qed.

Lemma schemaOf_above_latest (o : InitConfigOptions) (v : Z) :
  latestVersion o < v -> schemaOf o v = None.
Proof.
  unfold schemaOf, latestVersion. intros H.
  destruct (0 <=? v); [|reflexivity].
  apply lookup_ge_None. lia.
Qed.


Lemma resolveDocument_version_mismatch (o : InitConfigOptions) (text : string)
    (doc : value) (v : Z) :
  parse text = Some doc ->
  declaredVersion doc = Some v ->
  latestVersion o < v ->
  resolveDocument o text = inl (VersionMismatch (Some v)).
Proof.
  intros Hp Hv Hlt. unfold resolveDocument.
  now rewrite Hp, Hv, schemaOf_above_latest.
Qed.

(** A structural failure is reported whatever the semantic validator says. *)
Lemma validateLatest_structural (o : InitConfigOptions) (doc : value) :
  schema_errors regexTest (latestSchema o) [] doc <> [] ->
  validateLatest o doc
  = inl (SchemaValidationError (schema_errors regexTest (latestSchema o) [] doc)).
Proof.
  unfold validateLatest.
  destruct (schema_errors regexTest (latestSchema o) [] doc); [congruence|reflexivity].
Qed.

Lemma validateLatest_fields (o : InitConfigOptions) (doc : value)
    (fields : list (string * value)) :
  validateLatest o doc = inr fields -> doc = VObj fields.
Proof.
  unfold validateLatest.
  destruct (schema_errors regexTest (latestSchema o) [] doc); [|discriminate].
  destruct doc; try discriminate.
  destruct (validate o) as [check|]; [destruct (check fields0)|];
    intros [= ->] || discriminate; reflexivity.
Qed.

(** What a successful [open] tells about the content it read. *)
Lemma getConfigInitFunction_loaded (o : InitConfigOptions) (getDefaultConfig : option string)
    (w w1 : World) (h : InitializedConfig) :
  getConfigInitFunction o getDefaultConfig w = (Returned (Some h), w1) ->
  config_path h = configPathOf o /\
  config_latest h = latestVersion o /\
  exists text, readFile (files w1) (configPathOf o) = Some text /\
               resolveDocument o text = inr (config h).
Proof.
  unfold getConfigInitFunction, getReadonlyConfigInitFunction, locateContent.
  rewrite !run_bind. unfold get_world.
  destruct (readFile (files w) (configPathOf o)) as [text|] eqn:Hr.
  - rewrite run_ret.
    destruct (resolveDocument o text) as [e|fields] eqn:Hres.
    + discriminate.
    + rewrite run_ret. intros [= <- <-]. simpl. eauto.
  - destruct getDefaultConfig as [text|].
    + rewrite run_bind.
      pose proof (readFile_writeFile (configPathOf o) text w) as Hw.
      destruct (writeFile (configPathOf o) text w) as [[[]|f] w'] eqn:Hwr;
        [|discriminate Hwr].
      rewrite run_ret.
      destruct (resolveDocument o text) as [e|fields] eqn:Hres.
      * discriminate.
      * rewrite run_ret. intros [= <- <-]. simpl in *. eauto.
    + rewrite run_ret. discriminate.
Qed.

(** Opening a path whose file exists. *)
Lemma getConfigInitFunction_existing (o : InitConfigOptions) (getDefaultConfig : option string)
    (w : World) (text : string) :
  readFile (files w) (configPathOf o) = Some text ->
  getConfigInitFunction o getDefaultConfig w =
  match resolveDocument o text with
  | inl e => (Thrown (ConfigError (configPathOf o) e), w)
  | inr fields => (Returned (Some (mkConfig fields (configPathOf o) (latestVersion o))), w)
  end.
Proof.
  intros Hr.
  unfold getConfigInitFunction, getReadonlyConfigInitFunction, locateContent.
  rewrite !run_bind. unfold get_world. rewrite Hr, run_ret.
  now destruct (resolveDocument o text).
Qed.

(** Opening a path with no file and no default generator. *)
Lemma getConfigInitFunction_absent (o : InitConfigOptions) (w : World) :
  readFile (files w) (configPathOf o) = None ->
  getConfigInitFunction o None w = (Returned None, w).
Proof.
  intros Hr.
  unfold getConfigInitFunction, getReadonlyConfigInitFunction, locateContent.
  rewrite !run_bind. unfold get_world. now rewrite Hr, !run_ret.
Qed.

(** Modelled from the spec: invariant (a) of the data model: the in-memory
    value of a handle is at the latest version and validates against the
    latest schema. *)
Definition handleInvariant (o : InitConfigOptions) (fields : list (string * value)) : Prop :=
  declaredVersion (VObj fields) = Some (latestVersion o) /\
  validateLatest o (VObj fields) = inr fields.

(** A sequence of field mutations. *)
Definition edit (h : InitializedConfig) (edits : list (string * value)) : InitializedConfig :=
  fold_left (fun h' kx => assign (fst kx) (snd kx) h') edits h.

Lemma edit_keeps_binding (h : InitializedConfig) (edits : list (string * value)) :
  config_path (edit h edits) = config_path h /\
  config_latest (edit h edits) = config_latest h.
Proof.
  unfold edit. revert h.
  induction edits as [|[k x] rest IH]; intros h; simpl; [easy|].
  destruct (IH (assign k x h)) as [-> ->]. easy.
Qed.

Lemma committedDocument_version (h : InitializedConfig) :
  declaredVersion (committedDocument h) = Some (config_latest h).
Proof.
  unfold declaredVersion, committedDocument. simpl.
  now rewrite lookup_js_assign_eq.
Qed.

Lemma commit_run (h : InitializedConfig) (w : World) :
  commit h w =
  (Returned tt,
   with_files (<[config_path h := File (stringify (committedDocument h))]> (files w)) w).
Proof. reflexivity. Qed.





End Engine.

End InitConfig.

Export InitConfig.

(** ** The service config kind ([configs/project/service.ts]) *)

Module Service.

Section ServiceConfig.

Variable regexTest : string -> string -> bool.

(** [parse] of the [yaml] package, as the engine calls it: the document, or
    [None] when the package throws.  The package is outside the sources; the
    reader of [Yaml] above tells what it answers on the texts of the
    templates. *)
Variable yaml_parse : string -> option value.

(** [overridableModuleProperties] (module.ts), [BYTES_PATTERN],
    [MAX_HEAP_SIZE_DESCRIPTION] and [SERVICE_CONFIG_FILE_NAME] (const.ts),
    [validateAquaName] and [ensureServiceAbsolutePath] (downloadFile.ts) and
    [getFluenceDir] (paths.ts) are imported by service.ts from files outside
    the sources: they are parameters here, as are the platform's
    [color.yellow], [process.cwd()] and the YAML writer.  The annotation
    keywords of the schemas ([$id], [title], [description]) take no part in
    validation and are left out. *)
Variable overridableModuleProperties : list (string * schema).
Variable BYTES_PATTERN : string.
Variable MAX_HEAP_SIZE_DESCRIPTION : string.
Variable SERVICE_CONFIG_FILE_NAME : string.
Variable validateAquaName : option value -> validity.
Variable ensureServiceAbsolutePath : string -> string -> M string.
Variable getFluenceDir : string.
Variable getConfigPath : string -> string -> string.
Variable stringify : value -> string.
Variable yellow : string -> string.
Variable cwd : string.

(** An object literal: its entries assigned in order, spreads included. *)
Definition js_object {A : Type} (entries : list (string * A)) : list (string * A) :=
  js_spread [] entries.

Definition moduleSchemaForService : schema :=
  SObject
    (js_object ([("get", SString None false)] ++ overridableModuleProperties))
    ["get"]
    additionalProperties_false.

Definition FACADE_MODULE_NAME : string := "facade".

Definition overridableServiceProperties_properties : list (string * schema) :=
  [("totalMemoryLimit", SString (Some BYTES_PATTERN) true)].

Definition overridableServiceProperties_required : list string := [].

(** The schema of the [modules] property. *)
Definition modulesSchema : schema :=
  SObject
    (js_object [(FACADE_MODULE_NAME, moduleSchemaForService);
                ("Other_module_name", moduleSchemaForService)])
    [FACADE_MODULE_NAME]
    (Some moduleSchemaForService).

Definition configSchemaV0 : schema :=
  SObject
    (js_object ([("name", SString None false); ("modules", modulesSchema)]
                ++ overridableServiceProperties_properties
                ++ [("version", SNumber (Some 0))]))
    (["version"; "name"; "modules"] ++ overridableServiceProperties_required)
    additionalProperties_false.

Definition isValidServiceModules (arg : list (string * value)) : bool :=
  has_key FACADE_MODULE_NAME arg.

Definition serviceSchema : schema := configSchemaV0.

Definition migrations : list (value -> value) := [].

(** [validateAquaName(config.name)]: the argument is whatever the document
    has under [name] ([None] for [undefined]). *)
Definition validate (config : list (string * value)) : validity :=
  match validateAquaName (lookup_key "name" config) with
  | Valid => Valid
  | Invalid validity => Invalid ("Invalid service name: " +:+ validity)
  end.

Definition getInitConfigOptions (configDirPath : string) : InitConfigOptions :=
  {| InitConfig.allSchemas := [configSchemaV0];
     InitConfig.latestSchema := configSchemaV0;
     InitConfig.migrations := migrations;
     InitConfig.name := SERVICE_CONFIG_FILE_NAME;
     InitConfig.getSchemaDirPath := getFluenceDir;
     InitConfig.getConfigOrConfigDirPath := configDirPath;
     InitConfig.validate := Some validate |}.

Definition initServiceConfig (configOrConfigDirPathOrUrl absolutePath : string)
  : M (option InitializedConfig) :=
  configDirPath ← ensureServiceAbsolutePath configOrConfigDirPathOrUrl absolutePath;
  getConfigInitFunction regexTest yaml_parse getConfigPath
    (getInitConfigOptions configDirPath) None.

(** [maybeFluenceConfig?.services?.[nameOrPathOrUrl]?.get]: a string under
    the project config's schema; anything else reads as [undefined]. *)
Definition servicePathFromFluenceConfig (nameOrPathOrUrl : string)
    (maybeFluenceConfig : option InitializedReadonlyConfig) : option string :=
  match maybeFluenceConfig with
  | None => None
  | Some fluenceConfig =>
      match lookup_key "services" (ro_config fluenceConfig) with
      | Some services =>
          match get_field nameOrPathOrUrl services with
          | Some service =>
              match get_field "get" service with
              | Some (VStr get) => Some get
              | _ => None
              end
          | None => None
          end
      | None => None
      end
  end.

(** [maybeServicePathFromFluenceConfig === "string" ? projectRootDir : cwd()]:
    the directory a relative service path is resolved against.  The
    comparison is with the literal "string", as the source has it. *)
Definition serviceBaseDir (maybeServicePathFromFluenceConfig : option string)
    (w : World) : string :=
  match maybeServicePathFromFluenceConfig with
  | Some p => if String.eqb p "string" then projectRootDir w else cwd
  | None => cwd
  end.

Definition ensureServiceConfig (nameOrPathOrUrl : string)
    (maybeFluenceConfig : option InitializedReadonlyConfig) : M InitializedConfig :=
  let maybeServicePathFromFluenceConfig :=
    servicePathFromFluenceConfig nameOrPathOrUrl maybeFluenceConfig in
  let serviceOrServiceDirPathOrUrl :=
    default nameOrPathOrUrl maybeServicePathFromFluenceConfig in
  w ← get_world;
  serviceConfig ← initServiceConfig serviceOrServiceDirPathOrUrl
    (serviceBaseDir maybeServicePathFromFluenceConfig w);
  match serviceConfig with
  | None =>
      commandObj_error
        ("No service config found at " +:+ yellow serviceOrServiceDirPathOrUrl)
  | Some c => mret c
  end.

Definition initReadonlyServiceConfig (configOrConfigDirPathOrUrl absolutePath : string)
  : M (option InitializedReadonlyConfig) :=
  configDirPath ← ensureServiceAbsolutePath configOrConfigDirPathOrUrl absolutePath;
  getReadonlyConfigInitFunction regexTest yaml_parse getConfigPath
    (getInitConfigOptions configDirPath) None.

(** The text of the default template, line by line. *)
Definition getDefault (relativePathToFacade name : string) : string :=
  Yaml.unlines
    [
     "# Defines a [Marine service](https://fluence.dev/docs/build/concepts/#services),";
     "# most importantly the modules that the service consists of.";
     "# You can use `fluence service new` command to generate a template for new service";
     "";
     "# config version";
     "version: 0";
     "";
     "# Service name.";
     "# Currently it is used for the service name only when you add service to fluence.yaml using " +:+ dq +:+ "add" +:+ dq +:+ " command.";
     "# But this name can be overridden to any other with the --name flag or manually in fluence.yaml";
     "name: " +:+ name;
     "";
     "# A map of modules that the service consists of.";
     "# Service must have a facade module. Each module properties can be overridden";
     "modules:";
     "  facade:";
     "    # Either path to the module directory or";
     "    # URL to the tar.gz archive which contains the content of the module directory";
     "    get: '" +:+ relativePathToFacade +:+ "'";
     "";
     "    # You can override module configuration here:";
     "";
     "#     # environment variables accessible by a particular module";
     "#     # with standard Rust env API like this: std::env::var(IPFS_ADDR_ENV_NAME)";
     "#     # Module environment variables could be examined with repl";
     "#     envs:";
     "#       ENV_VARIABLE: " +:+ dq +:+ "env variable string value" +:+ dq;
     "#";
     "#     # Set true to allow module to use the Marine SDK logger";
     "#     loggerEnabled: true";
     "#";
     "#     # manages the logging targets, described in detail: https://fluence.dev/docs/marine-book/marine-rust-sdk/developing/logging#using-target-map";
     "#     loggingMask: 1";
     "#";
     "#     # " +:+ MAX_HEAP_SIZE_DESCRIPTION;
     "#     maxHeapSize: 1KiB";
     "#";
     "#     # A map of binary executable files that module is allowed to call";
     "#     mountedBinaries:";
     "#       curl: " +:+ dq +:+ "/usr/bin/curl" +:+ dq;
     "#";
     "#     # A map of accessible files and their aliases.";
     "#     # Aliases should be used in Marine module development because it's hard to know the full path to a file";
     "#     volumes:";
     "#       alias: " +:+ dq +:+ "some/alias/path" +:+ dq
    ].

Definition initNewReadonlyServiceConfig (configPath relativePathToFacade name : string)
  : M (option InitializedReadonlyConfig) :=
  getReadonlyConfigInitFunction regexTest yaml_parse getConfigPath
    (getInitConfigOptions configPath)
    (Some (getDefault relativePathToFacade name)).

(** *** The schema *)

Lemma js_object_app {A : Type} (a b : list (string * A)) :
  js_object (a ++ b) = js_spread (js_object a) b.
Proof. unfold js_object, js_spread. apply fold_left_app. Qed.

(** When the overridable properties do not redefine [get], a module's [get]
    is a plain string. *)
Lemma module_get_schema :
  has_key "get" overridableModuleProperties = false ->
  lookup_key "get"
    (js_object ([("get", SString None false)] ++ overridableModuleProperties))
  = Some (SString None false).
Proof.
  intros H. rewrite js_object_app, lookup_js_spread_absent; [reflexivity|].
  unfold has_key in H. destruct (lookup_key "get" overridableModuleProperties);
    [discriminate|reflexivity].
Qed.

(** The document the scenarios and the default template share. *)
Definition minimalDocument (name relativePathToFacade : string) : list (string * value) :=
  [("version", VNum 0);
   ("name", VStr name);
   ("modules", VObj [(FACADE_MODULE_NAME, VObj [("get", VStr relativePathToFacade)])])].

Lemma minimalDocument_conforms (name relativePathToFacade : string) :
  has_key "get" overridableModuleProperties = false ->
  schema_errors regexTest configSchemaV0 []
    (VObj (minimalDocument name relativePathToFacade)) = [].
Proof.
  intros H.
  assert (G : lookup_key "get"
                (js_spread [("get", SString None false)] overridableModuleProperties)
              = Some (SString None false)).
  { rewrite lookup_js_spread_absent; [reflexivity|].
    unfold has_key in H.
    destruct (lookup_key "get" overridableModuleProperties);
      [discriminate|reflexivity]. }
  unfold js_spread in G. cbn. now rewrite G.
Qed.

(** *** The semantic validator *)

Lemma validate_valid_iff (config : list (string * value)) :
  validate config = Valid <-> validateAquaName (lookup_key "name" config) = Valid.
Proof.
  unfold validate.
  destruct (validateAquaName (lookup_key "name" config)); split;
    intros; try reflexivity; discriminate.
Qed.

Lemma validate_invalid (config : list (string * value)) (why : string) :
  validateAquaName (lookup_key "name" config) = Invalid why ->
  validate config = Invalid ("Invalid service name: " +:+ why).
Proof. unfold validate. now intros ->. Qed.
(** *** The default template *)

Lemma getDefault_parses (relativePathToFacade name : string) :
  Yaml.all_chars Yaml.inline_char MAX_HEAP_SIZE_DESCRIPTION = true ->
  Yaml.all_chars Yaml.quotable_char relativePathToFacade = true ->
  Yaml.is_plain_name name = true ->
  Yaml.parse (getDefault relativePathToFacade name)
  = Yaml.Ok (VObj (minimalDocument name relativePathToFacade)).
Proof.
  intros Hdesc Hpath Hname.
  pose proof (Yaml.quotable_inline _ Hpath) as Hpath'.
  pose proof (Yaml.plain_name_inline _ Hname) as Hname'.
  unfold Yaml.parse, getDefault.
  match goal with |- context [Yaml.unlines ?ls] =>
    assert (Hlines : forallb (Yaml.all_chars Yaml.inline_char) ls = true)
  end.
  { cbn [forallb].
    repeat match goal with
           | |- (_ && _) = true => apply andb_true_intro; split
           | |- Yaml.all_chars _ (_ +:+ _) = true => rewrite Yaml.all_chars_app
           end;
      first [assumption | vm_compute; reflexivity]. }
  rewrite (Yaml.all_chars_unlines _ Hlines), (Yaml.split_lines_unlines _ Hlines).
  cbn [negb app map].
  change (Yaml.classify ("name: " +:+ name))
    with (Yaml.entry_of 0 "name" (String " " name)).
  change (Yaml.classify ("    get: '" +:+ relativePathToFacade +:+ "'"))
    with (Yaml.entry_of 4 "get"
            (String " " (String "'" (relativePathToFacade +:+ "'")))).
  rewrite (Yaml.entry_of_plain_name _ _ _ Hname), (Yaml.entry_of_quoted _ _ _ Hpath).
  vm_compute. reflexivity.
Qed.
(** *** Loading service configs *)

Lemma resolve_minimalDocument (configDirPath text name relativePathToFacade : string) :
  has_key "get" overridableModuleProperties = false ->
  yaml_parse text = Some (VObj (minimalDocument name relativePathToFacade)) ->
  resolveDocument regexTest yaml_parse (getInitConfigOptions configDirPath) text
  = match validate (minimalDocument name relativePathToFacade) with
    | Valid => inr (minimalDocument name relativePathToFacade)
    | Invalid message => inl (SemanticValidationError message)
    end.
Proof.
  intros Hget Hparse. unfold resolveDocument. rewrite Hparse.
  change (declaredVersion (VObj (minimalDocument name relativePathToFacade)))
    with (Some 0).
  change (schemaOf (getInitConfigOptions configDirPath) 0) with (Some configSchemaV0).
  cbv iota beta.
  rewrite migrateToLatest_no_migrations by reflexivity.
  unfold validateLatest.
  change (latestSchema (getInitConfigOptions configDirPath)) with configSchemaV0.
  rewrite (minimalDocument_conforms _ _ Hget). reflexivity.
Qed.


(** C4: the service validator answers [true] exactly when [validateAquaName]
    accepts the document's [name], and otherwise the string
    "Invalid service name: ..." (a value, not an exception); the loader
    consults it only for documents without structural errors; the scenario's
    document named svc1 loads and the one named "Bad Name!" fails semantic
    validation with the message about its name. *)
Theorem service_validate_after_structure (configDirPath : string) :
  (forall config,
     validate config = Valid <-> validateAquaName (lookup_key "name" config) = Valid) /\
  (forall config why,
     validateAquaName (lookup_key "name" config) = Invalid why ->
     validate config = Invalid ("Invalid service name: " +:+ why)) /\
  (forall doc,
     schema_errors regexTest configSchemaV0 [] doc <> [] ->
     validateLatest regexTest (getInitConfigOptions configDirPath) doc
     = inl (SchemaValidationError (schema_errors regexTest configSchemaV0 [] doc))) /\
  (has_key "get" overridableModuleProperties = false ->
   validateAquaName (Some (VStr "svc1")) = Valid ->
   forall text,
     yaml_parse text = Some (VObj (minimalDocument "svc1" "./mod")) ->
     resolveDocument regexTest yaml_parse (getInitConfigOptions configDirPath) text
     = inr (minimalDocument "svc1" "./mod")) /\
  (has_key "get" overridableModuleProperties = false ->
   forall why,
     validateAquaName (Some (VStr "Bad Name!")) = Invalid why ->
     forall text,
       yaml_parse text = Some (VObj (minimalDocument "Bad Name!" "./mod")) ->
       resolveDocument regexTest yaml_parse (getInitConfigOptions configDirPath) text
       = inl (SemanticValidationError ("Invalid service name: " +:+ why))).
Proof.
  split; [exact validate_valid_iff|].
  split; [exact validate_invalid|].
  split; [intros doc; apply (validateLatest_structural regexTest (getInitConfigOptions configDirPath))|].
  split.
  - intros Hget Hok text Hparse.
    rewrite (resolve_minimalDocument _ _ _ _ Hget Hparse).
    unfold validate. cbn [minimalDocument lookup_key String.eqb Ascii.eqb Bool.eqb].
    now rewrite Hok.
  - intros Hget why Hbad text Hparse.
    rewrite (resolve_minimalDocument _ _ _ _ Hget Hparse).
    unfold validate. cbn [minimalDocument lookup_key String.eqb Ascii.eqb Bool.eqb].
    now rewrite Hbad.
Qed.

(** C2: whatever text the [yaml] package reads as a document whose integer
    [version] exceeds the latest known version 0, the service pipeline
    refuses it with VersionMismatch, not with a parse error, and so does
    [open] on a file holding it, which leaves the world as it was. *)
Theorem newer_version_is_version_mismatch (configDirPath text : string)
    (doc : value) (v : Z) :
  yaml_parse text = Some doc ->
  declaredVersion doc = Some v ->
  0 < v ->
  resolveDocument regexTest yaml_parse (getInitConfigOptions configDirPath) text
  = inl (VersionMismatch (Some v)) /\
  forall (w : World) (getDefaultConfig : option string),
    readFile (files w) (configPathOf getConfigPath (getInitConfigOptions configDirPath))
    = Some text ->
    getConfigInitFunction regexTest yaml_parse getConfigPath
      (getInitConfigOptions configDirPath) getDefaultConfig w
    = (Thrown (ConfigError
                 (configPathOf getConfigPath (getInitConfigOptions configDirPath))
                 (VersionMismatch (Some v))), w).
Proof.
  intros Hparse Hv Hpos.
  assert (Hres : resolveDocument regexTest yaml_parse
                   (getInitConfigOptions configDirPath) text
                 = inl (VersionMismatch (Some v))).
  { eapply resolveDocument_version_mismatch; eauto. }
  split; [exact Hres|].
  intros w d Hfile.
  rewrite (getConfigInitFunction_existing _ _ _ _ _ _ _ Hfile).
  now rewrite Hres.
Qed.

(** C6: the service kind has no migrations and its latest version is 0, so
    running its chain, whole or from any declared version, returns the
    document it was given; for any kind, migrating a document that is at the
    latest version returns it unchanged. *)
Theorem service_migration_is_noop (configDirPath : string) (doc : value) :
  fold_left (fun d (m : value -> value) => m d) migrations doc = doc /\
  latestVersion (getInitConfigOptions configDirPath) = 0 /\
  (forall v, migrateToLatest (getInitConfigOptions configDirPath) doc v = doc) /\
  (forall o, migrateToLatest o doc (latestVersion o) = doc).
Proof.
  split; [reflexivity|]. split; [reflexivity|]. split.
  - intros v. now apply migrateToLatest_no_migrations.
  - intros o. apply migrateToLatest_at_latest.
Qed.

Lemma initServiceConfig_run (configOrConfigDirPathOrUrl absolutePath : string)
    (w w1 : World) (configDirPath : string) :
  ensureServiceAbsolutePath configOrConfigDirPathOrUrl absolutePath w
  = (Returned configDirPath, w1) ->
  initServiceConfig configOrConfigDirPathOrUrl absolutePath w
  = getConfigInitFunction regexTest yaml_parse getConfigPath
      (getInitConfigOptions configDirPath) None w1.
Proof. intros H. unfold initServiceConfig. now rewrite run_bind, H. Qed.

(** C7: when the service directory resolves and holds no config file,
    [initServiceConfig] (which gives no default generator) returns [null]
    and adds nothing to the world, and [ensureServiceConfig] stops with
    "No service config found at" followed by the service path or URL it
    looked up. *)
Theorem missing_service_config_not_found (nameOrPathOrUrl : string)
    (maybeFluenceConfig : option InitializedReadonlyConfig)
    (w w1 : World) (configDirPath : string) :
  let requested :=
    default nameOrPathOrUrl
      (servicePathFromFluenceConfig nameOrPathOrUrl maybeFluenceConfig) in
  let base :=
    serviceBaseDir (servicePathFromFluenceConfig nameOrPathOrUrl maybeFluenceConfig) w in
  ensureServiceAbsolutePath requested base w = (Returned configDirPath, w1) ->
  readFile (files w1) (getConfigPath configDirPath SERVICE_CONFIG_FILE_NAME) = None ->
  initServiceConfig requested base w = (Returned None, w1) /\
  ensureServiceConfig nameOrPathOrUrl maybeFluenceConfig w
  = (Thrown (CommandError ("No service config found at " +:+ yellow requested)), w1).
Proof.
  intros requested base Hresolve Habsent.
  assert (Hinit : initServiceConfig requested base w = (Returned None, w1)).
  { rewrite (initServiceConfig_run _ _ _ _ _ Hresolve).
    now apply getConfigInitFunction_absent. }
  split; [exact Hinit|].
  unfold ensureServiceConfig. rewrite run_bind. unfold get_world.
  rewrite run_bind. fold requested. fold base.
  now rewrite Hinit.
Qed.

Lemma flat_map_nil_inv {A B : Type} (f : A -> list B) (l : list A) (a : A) :
  flat_map f l = [] -> In a l -> f a = [].
Proof.
  induction l as [|b l IH]; simpl; [intros _ []|].
  intros [Hb Hl]%app_eq_nil [->|Hin]; [exact Hb|now apply IH].
Qed.

(** The only version the schema admits is 0. *)
Lemma conforming_version (doc : value) :
  schema_errors regexTest configSchemaV0 [] doc = [] ->
  declaredVersion doc = Some 0.
Proof.
  destruct doc as [| | | | |fields]; try discriminate.
  unfold configSchemaV0. cbn [schema_errors].
  intros [Hreq Hfields]%app_eq_nil.
  unfold declaredVersion, get_field.
  destruct (lookup_key "version" fields) as [x|] eqn:Hx.
  - apply lookup_key_In in Hx.
    pose proof (flat_map_nil_inv _ _ _ Hfields Hx) as Hv. cbn in Hv.
    destruct x as [| |n| | |]; cbn in Hv; try discriminate Hv.
    destruct (Z.eqb_spec n 0); [now subst|discriminate].
  - cbn in Hreq. unfold has_key in Hreq. rewrite Hx in Hreq. discriminate.
Qed.

(** For the service kind the handle invariant is validity: the schema admits
    no other version than the latest. *)
Lemma service_handleInvariant (configDirPath : string) (fields : list (string * value)) :
  validateLatest regexTest (getInitConfigOptions configDirPath) (VObj fields) = inr fields ->
  handleInvariant regexTest (getInitConfigOptions configDirPath) fields.
Proof.
  intros Hval. split; [|exact Hval].
  apply conforming_version.
  unfold validateLatest in Hval.
  change (latestSchema (getInitConfigOptions configDirPath)) with configSchemaV0 in Hval.
  destruct (schema_errors regexTest configSchemaV0 [] (VObj fields));
    [reflexivity|discriminate].
Qed.

(** A service handle satisfies the invariant when [open] hands it out. *)
Lemma service_open_invariant (configDirPath : string) (getDefaultConfig : option string)
    (w w1 : World) (h : InitializedConfig) :
  getConfigInitFunction regexTest yaml_parse getConfigPath
    (getInitConfigOptions configDirPath) getDefaultConfig w
  = (Returned (Some h), w1) ->
  handleInvariant regexTest (getInitConfigOptions configDirPath) (config h).
Proof.
  intros Hopen.
  destruct (getConfigInitFunction_loaded _ _ _ _ _ _ _ _ Hopen)
    as (_ & _ & text & _ & Hres).
  apply service_handleInvariant.
  unfold resolveDocument in Hres.
  destruct (yaml_parse text) as [doc|]; [|discriminate].
  destruct (declaredVersion doc) as [v|]; [|discriminate].
  destruct (schemaOf (getInitConfigOptions configDirPath) v); [|discriminate].
  rewrite migrateToLatest_no_migrations in Hres by reflexivity.
  now rewrite <- (validateLatest_fields _ _ _ _ Hres).
Qed.

(** C8: whatever edits precede it, [$commit] on a handle obtained from [open]
    overwrites the handle's file with the serialization of a document whose
    embedded version is the kind's latest version; for the service kind that
    version is 0, the constant its only schema allows. *)
Theorem commit_writes_latest_version (o : InitConfigOptions)
    (getDefaultConfig : option string) (w0 w1 w : World) (h : InitializedConfig)
    (edits : list (string * value)) (configDirPath : string) :
  getConfigInitFunction regexTest yaml_parse getConfigPath o getDefaultConfig w0
  = (Returned (Some h), w1) ->
  (exists w',
     commit stringify (edit h edits) w = (Returned tt, w') /\
     files w' = <[configPathOf getConfigPath o :=
                    File (stringify (committedDocument (edit h edits)))]> (files w)) /\
  declaredVersion (committedDocument (edit h edits)) = Some (latestVersion o) /\
  latestVersion (getInitConfigOptions configDirPath) = 0 /\
  allSchemas (getInitConfigOptions configDirPath) = [configSchemaV0] /\
  (forall doc,
     schema_errors regexTest configSchemaV0 [] doc = [] ->
     declaredVersion doc = Some 0).
Proof.
  intros Hopen.
  destruct (getConfigInitFunction_loaded _ _ _ _ _ _ _ _ Hopen) as (Hp & Hl & _).
  destruct (edit_keeps_binding h edits) as [Hp' Hl'].
  split.
  { eexists. rewrite commit_run. split; [reflexivity|].
    simpl. now rewrite Hp', Hp. }
  split; [rewrite committedDocument_version; congruence|].
  split; [reflexivity|]. split; [reflexivity|].
  exact conforming_version.
Qed.

(** Where the default template holds up: for a facade path of printable
    characters without single quote and a name that YAML reads as a plain
    string, it parses to the document with version 0, that name and a facade
    module carrying the path under [get]; the document has no structural
    error against the version-0 schema, and passes the semantic check when
    [validateAquaName] accepts the name. *)
Theorem default_template_validates (relativePathToFacade name : string) :
  has_key "get" overridableModuleProperties = false ->
  Yaml.all_chars Yaml.inline_char MAX_HEAP_SIZE_DESCRIPTION = true ->
  Yaml.all_chars Yaml.quotable_char relativePathToFacade = true ->
  Yaml.is_plain_name name = true ->
  Yaml.parse (getDefault relativePathToFacade name)
  = Yaml.Ok (VObj (minimalDocument name relativePathToFacade)) /\
  schema_errors regexTest configSchemaV0 []
    (VObj (minimalDocument name relativePathToFacade)) = [] /\
  (validateAquaName (Some (VStr name)) = Valid ->
   validate (minimalDocument name relativePathToFacade) = Valid).
Proof.
  intros Hget Hdesc Hpath Hname.
  split; [now apply getDefault_parses|].
  split; [now apply minimalDocument_conforms|].
  intros Hok. apply validate_valid_iff.
  cbn [minimalDocument lookup_key String.eqb Ascii.eqb Bool.eqb]. exact Hok.
Qed.

(** *** Further properties of the schema and of the lookup of services *)

(** X1: a document without structural errors has the shape of [ConfigV0]:
    an object with [version] 0, a string [name] and a [modules] object that
    passes [isValidServiceModules] and whose facade module has a string
    [get]. *)
Theorem conforming_document_shape (doc : value) :
  has_key "get" overridableModuleProperties = false ->
  schema_errors regexTest configSchemaV0 [] doc = [] ->
  exists fields name modules facade get,
    doc = VObj fields /\
    lookup_key "version" fields = Some (VNum 0) /\
    lookup_key "name" fields = Some (VStr name) /\
    lookup_key "modules" fields = Some (VObj modules) /\
    isValidServiceModules modules = true /\
    lookup_key FACADE_MODULE_NAME modules = Some (VObj facade) /\
    lookup_key "get" facade = Some (VStr get).
Proof.
  intros Hget Hnil.
  pose proof (conforming_version doc Hnil) as Hversion.
  unfold configSchemaV0 in Hnil.
  apply object_errors_nil in Hnil as (fields & -> & Hreq & Hprops).
  assert (Hname : has_key "name" fields = true)
    by (eapply required_errors_nil; [exact Hreq|cbn; auto]).
  assert (Hmodules : has_key "modules" fields = true)
    by (eapply required_errors_nil; [exact Hreq|cbn; auto]).
  apply lookup_key_has_key in Hname as [name Hname].
  apply lookup_key_has_key in Hmodules as [modules Hmodules].
  destruct (string_errors_nil regexTest _ _
              (Hprops "name" name _ (lookup_key_In _ _ _ Hname) eq_refl))
    as [nameText ->].
  pose proof (Hprops "modules" modules modulesSchema
                (lookup_key_In _ _ _ Hmodules) eq_refl) as Hm.
  unfold modulesSchema in Hm.
  apply object_errors_nil in Hm as (entries & -> & Hreq' & Hprops').
  assert (Hfacade : has_key FACADE_MODULE_NAME entries = true)
    by (eapply required_errors_nil; [exact Hreq'|cbn; auto]).
  pose proof Hfacade as Hguard.
  apply lookup_key_has_key in Hfacade as [facade Hfacade].
  pose proof (Hprops' FACADE_MODULE_NAME facade moduleSchemaForService
                (lookup_key_In _ _ _ Hfacade) eq_refl) as Hf.
  unfold moduleSchemaForService in Hf.
  apply object_errors_nil in Hf as (facadeFields & -> & Hreq'' & Hprops'').
  assert (Hg : has_key "get" facadeFields = true)
    by (eapply required_errors_nil; [exact Hreq''|cbn; auto]).
  apply lookup_key_has_key in Hg as [get Hg].
  destruct (string_errors_nil regexTest _ _
              (Hprops'' "get" get _ (lookup_key_In _ _ _ Hg) (module_get_schema Hget)))
    as [getText ->].
  exists fields, nameText, entries, facadeFields, getText.
  repeat (split; [first [reflexivity | assumption]|]); try assumption.
  unfold declaredVersion, get_field in Hversion.
  destruct (lookup_key "version" fields) as [[]|]; try discriminate.
  now injection Hversion as ->.
Qed.

(** What the loader sees of a document with a violation: it does not
    conform, and the validator reports something, in either mode. *)
Definition rejected (report : schema -> value -> list verror) (doc : value) : Prop :=
  conforms regexTest configSchemaV0 doc = false /\ report configSchemaV0 doc <> [].

(** X2: the schema closes the top level: a document with a property other
    than [name], [modules], [totalMemoryLimit] and [version] is rejected in
    either mode of the validator, the additional property being one of its
    violations; and when the required properties are there, the first
    violation the validator meets is an additional property at the root,
    before any value is looked at. *)
Theorem unknown_property_rejected (report : schema -> value -> list verror)
    (fields : list (string * value)) (k : string) (x : value) :
  reports_violations regexTest report ->
  In (k, x) fields ->
  k <> "name" -> k <> "modules" -> k <> "totalMemoryLimit" -> k <> "version" ->
  rejected report (VObj fields) /\
  In (VError [] (KAdditionalProperties k))
     (schema_errors regexTest configSchemaV0 [] (VObj fields)) /\
  (has_key "version" fields = true -> has_key "name" fields = true ->
   has_key "modules" fields = true ->
   exists unknown,
     first_error regexTest configSchemaV0 [] (VObj fields)
     = Some (VError [] (KAdditionalProperties unknown))).
Proof.
  intros Hreport Hin H1 H2 H3 H4.
  apply String.eqb_neq in H1, H2, H3, H4.
  assert (He : In (VError [] (KAdditionalProperties k))
                  (schema_errors regexTest configSchemaV0 [] (VObj fields))).
  { unfold configSchemaV0. eapply schema_errors_unknown; [exact Hin|].
    cbn. now rewrite H1, H2, H3, H4. }
  split; [exact (violation_rejected regexTest report _ _ _ Hreport He)|].
  split; [exact He|].
  intros Hv Hn Hm. unfold configSchemaV0.
  cbn [first_error first_some fold_right app overridableServiceProperties_required].
  rewrite Hv, Hn, Hm.
  match goal with
  | |- context [first_some ?f (map ?g fields)] =>
      destruct (first_some_found f (map g fields) (g (k, x))
                  (VError [] (KAdditionalProperties k))) as [e' He'];
        [exact (in_map g fields (k, x) Hin)
        |cbn; unfold has_key; cbn; now rewrite H1, H2, H3, H4
        |rewrite He'; apply first_some_Some in He' as ([k' oe] & Hin' & Hoe)]
  end.
  apply in_map_iff in Hin' as (kx & Heq & _). cbv beta in Heq.
  injection Heq as Hk' Hoe'. subst k' oe.
  revert Hoe. cbn. unfold has_key. cbn.
  repeat match goal with
         | |- context [String.eqb ?a ?b] => destruct (String.eqb a b)
         end;
    intros Hoe; try discriminate Hoe; injection Hoe as <-; eauto.
Qed.

(** The errors of a module, whatever its name, are errors of the document. *)
Lemma module_errors_reported (fields modules : list (string * value))
    (moduleName : string) (x : value) (e : verror) :
  In ("modules", VObj modules) fields ->
  In (moduleName, x) modules ->
  In e (schema_errors regexTest moduleSchemaForService ["modules"; moduleName] x) ->
  In e (schema_errors regexTest configSchemaV0 [] (VObj fields)).
Proof.
  intros Hm Hx He. unfold configSchemaV0.
  eapply (schema_errors_property regexTest); [exact Hm|reflexivity|].
  cbn [app]. unfold modulesSchema.
  destruct (lookup_key moduleName
              (js_object [(FACADE_MODULE_NAME, moduleSchemaForService);
                          ("Other_module_name", moduleSchemaForService)]))
    as [sk|] eqn:Hk.
  - eapply (schema_errors_property regexTest); [exact Hx|exact Hk|].
    cbn in Hk.
    destruct (String.eqb moduleName FACADE_MODULE_NAME);
      [|destruct (String.eqb moduleName "Other_module_name"); [|discriminate]];
      injection Hk as <-; exact He.
  - eapply (schema_errors_additional regexTest); [exact Hx|exact Hk|exact He].
Qed.

(** X3: every module of a service, under whatever name, is held to the
    module schema: a module that is not an object (a type violation), one
    without [get] (a missing required property), or one with a property that
    is neither [get] nor overridable (an additional property) is a violation
    located at the module, and the document is rejected in either mode of
    the validator. *)
Theorem every_module_is_checked (report : schema -> value -> list verror)
    (fields modules : list (string * value)) (moduleName : string) (x : value) :
  reports_violations regexTest report ->
  In ("modules", VObj modules) fields ->
  In (moduleName, x) modules ->
  match x with
  | VObj moduleFields =>
      (has_key "get" moduleFields = false ->
       In (VError ["modules"; moduleName] (KRequired "get"))
          (schema_errors regexTest configSchemaV0 [] (VObj fields)) /\
       rejected report (VObj fields)) /\
      (forall k y,
         In (k, y) moduleFields -> k <> "get" ->
         lookup_key k overridableModuleProperties = None ->
         In (VError ["modules"; moduleName] (KAdditionalProperties k))
            (schema_errors regexTest configSchemaV0 [] (VObj fields)) /\
         rejected report (VObj fields))
  | _ =>
      In (VError ["modules"; moduleName] KType)
         (schema_errors regexTest configSchemaV0 [] (VObj fields)) /\
      rejected report (VObj fields)
  end.
Proof.
  intros Hreport Hm Hx.
  pose proof (module_errors_reported fields modules moduleName x) as Hrep.
  assert (Hrej : forall e,
            In e (schema_errors regexTest configSchemaV0 [] (VObj fields)) ->
            In e (schema_errors regexTest configSchemaV0 [] (VObj fields)) /\
            rejected report (VObj fields)).
  { intros e He. split; [exact He|].
    exact (violation_rejected regexTest report _ _ _ Hreport He). }
  destruct x as [| | | | |moduleFields];
    try (apply Hrej, Hrep; [exact Hm|exact Hx|now left]).
  split.
  - intros Hmiss. apply Hrej, Hrep; [exact Hm|exact Hx|].
    unfold moduleSchemaForService. cbn [schema_errors].
    apply in_or_app. left. apply required_errors_missing; [now left|exact Hmiss].
  - intros k y Hk Hne Hov. apply Hrej, Hrep; [exact Hm|exact Hx|].
    unfold moduleSchemaForService.
    eapply schema_errors_unknown; [exact Hk|].
    rewrite js_object_app, lookup_js_spread_absent by exact Hov.
    apply String.eqb_neq in Hne. cbn. now rewrite Hne.
Qed.

(** X4: [totalMemoryLimit] is optional and nullable: added to a document
    that is otherwise in order, [null] and a string matching [BYTES_PATTERN]
    give no error, a string not matching gives the pattern error, and any
    other value the type error, at [totalMemoryLimit]. *)
Theorem totalMemoryLimit_checked (name relativePathToFacade : string) (limit : value) :
  has_key "get" overridableModuleProperties = false ->
  schema_errors regexTest configSchemaV0 []
    (VObj (minimalDocument name relativePathToFacade ++ [("totalMemoryLimit", limit)]))
  = match limit with
    | VNull => []
    | VStr s =>
        if regexTest BYTES_PATTERN s then []
        else [VError ["totalMemoryLimit"] KPattern]
    | _ => [VError ["totalMemoryLimit"] KType]
    end.
Proof.
  intros H.
  assert (G : lookup_key "get"
                (js_spread [("get", SString None false)] overridableModuleProperties)
              = Some (SString None false)).
  { rewrite lookup_js_spread_absent; [reflexivity|].
    unfold has_key in H.
    destruct (lookup_key "get" overridableModuleProperties);
      [discriminate|reflexivity]. }
  unfold js_spread in G. cbn. rewrite G. cbn.
  destruct limit; try reflexivity.
  cbn. now destruct (regexTest BYTES_PATTERN s).
Qed.

(** X5: a service listed in the project config is looked up by the path
    listed for it: unless that path is the literal "string",
    [ensureServiceConfig] on the name does what it does on the path with no
    project config, failures and their messages included. *)
Theorem listed_service_resolves_as_its_path (nameOrPathOrUrl : string)
    (maybeFluenceConfig : option InitializedReadonlyConfig) (p : string) (w : World) :
  servicePathFromFluenceConfig nameOrPathOrUrl maybeFluenceConfig = Some p ->
  p <> "string" ->
  ensureServiceConfig nameOrPathOrUrl maybeFluenceConfig w
  = ensureServiceConfig p None w.
Proof.
  intros Hp Hne. unfold ensureServiceConfig. rewrite Hp.
  cbn [servicePathFromFluenceConfig default].
  rewrite !run_bind. unfold get_world. rewrite !run_bind.
  unfold serviceBaseDir.
  assert (String.eqb p "string" = false) as ->; [|reflexivity].
  now apply String.eqb_neq.
Qed.

(** The template with a name whose entry reads as the value [v]. *)
Lemma getDefault_parses_name (relativePathToFacade name : string) (v : value) :
  Yaml.all_chars Yaml.inline_char MAX_HEAP_SIZE_DESCRIPTION = true ->
  Yaml.all_chars Yaml.quotable_char relativePathToFacade = true ->
  Yaml.all_chars Yaml.inline_char name = true ->
  Yaml.entry_of 0 "name" (String " " name) = Yaml.LEntry 0 "name" (Some v) ->
  Yaml.parse (getDefault relativePathToFacade name)
  = Yaml.Ok (VObj [("version", VNum 0); ("name", v);
                   ("modules",
                    VObj [(FACADE_MODULE_NAME,
                           VObj [("get", VStr relativePathToFacade)])])]).
Proof.
  intros Hdesc Hpath Hname' Hentry.
  pose proof (Yaml.quotable_inline _ Hpath) as Hpath'.
  unfold Yaml.parse, getDefault.
  match goal with |- context [Yaml.unlines ?ls] =>
    assert (Hlines : forallb (Yaml.all_chars Yaml.inline_char) ls = true)
  end.
  { cbn [forallb].
    repeat match goal with
           | |- (_ && _) = true => apply andb_true_intro; split
           | |- Yaml.all_chars _ (_ +:+ _) = true => rewrite Yaml.all_chars_app
           end;
      first [assumption | vm_compute; reflexivity]. }
  rewrite (Yaml.all_chars_unlines _ Hlines), (Yaml.split_lines_unlines _ Hlines).
  cbn [negb app map].
  change (Yaml.classify ("name: " +:+ name))
    with (Yaml.entry_of 0 "name" (String " " name)).
  change (Yaml.classify ("    get: '" +:+ relativePathToFacade +:+ "'"))
    with (Yaml.entry_of 4 "get"
            (String " " (String "'" (relativePathToFacade +:+ "'")))).
  rewrite Hentry, (Yaml.entry_of_quoted _ _ _ Hpath).
  vm_compute. reflexivity.
Qed.

(** X6: the template writes the name as a plain scalar, so a name made of
    digits, or one of the words for null, true and false, is not read back
    as a string: the generated document then has exactly one structural
    error, the type error at [name]. *)
Theorem default_template_non_string_name (relativePathToFacade name : string) :
  has_key "get" overridableModuleProperties = false ->
  Yaml.all_chars Yaml.inline_char MAX_HEAP_SIZE_DESCRIPTION = true ->
  Yaml.all_chars Yaml.quotable_char relativePathToFacade = true ->
  Yaml.is_non_string_name name = true ->
  exists v doc,
    Yaml.parse (getDefault relativePathToFacade name) = Yaml.Ok doc /\
    get_field "name" doc = Some v /\
    Yaml.is_scalar_non_string v = true /\
    schema_errors regexTest configSchemaV0 [] doc = [VError ["name"] KType].
Proof.
  intros Hget Hdesc Hpath Hname.
  destruct (Yaml.entry_of_non_string 0 "name" name Hname) as (v & Hentry & Hv & Hinline).
  exists v,
    (VObj [("version", VNum 0); ("name", v);
           ("modules",
            VObj [(FACADE_MODULE_NAME, VObj [("get", VStr relativePathToFacade)])])]).
  split; [now apply getDefault_parses_name|].
  split; [reflexivity|]. split; [exact Hv|].
  assert (G : lookup_key "get"
                (js_spread [("get", SString None false)] overridableModuleProperties)
              = Some (SString None false)).
  { rewrite lookup_js_spread_absent; [reflexivity|].
    unfold has_key in Hget.
    destruct (lookup_key "get" overridableModuleProperties);
      [discriminate|reflexivity]. }
  unfold js_spread in G. cbn. rewrite G.
  destruct v; try discriminate Hv; cbn; reflexivity.
Qed.

End ServiceConfig.

End Service.

(** ** Project scaffolding ([init.ts]) *)

Module Init.

Definition newline : string := String Yaml.LF EmptyString.

(** The templates the [switch] of [init] distinguishes. *)
Inductive Template : Type :=
| minimal
| js
| ts.

Definition template_name (t : Template) : string :=
  match t with
  | minimal => "minimal"
  | js => "js"
  | ts => "ts"
  end.

Record InitArg : Type := mkInitArg {
  maybeProjectPath : option string;
  template : option Template
}.

(** What init.ts imports from files outside the sources (const.ts, paths.ts,
    prompt.ts, versions.json, the project and workers configs, the Aqua
    helpers) and from the platform (node:path, process, JSON, colors).  A
    prompt returns the user's answer and leaves the world as it is. *)
Class Collaborators : Type := {
  (* const.ts *)
  RECOMMENDED_GITIGNORE_CONTENT : string;
  TEMPLATES : list Template;
  PACKAGE_JSON_FILE_NAME : string;
  INDEX_JS_FILE_NAME : string;
  INDEX_TS_FILE_NAME : string;
  SRC_DIR_NAME : string;
  TEMPLATE_INDEX_FILE_CONTENT : string;
  TYPESCRIPT_RECOMMENDED_VERSION : string;
  TS_NODE_RECOMMENDED_VERSION : string;
  TS_CONFIG_FILE_NAME : string;
  JS_CLIENT_NODE_NPM_DEPENDENCY : string;
  JS_CLIENT_API_NPM_DEPENDENCY : string;
  FLUENCE_NETWORK_ENVIRONMENT_NPM_DEPENDENCY : string;
  (* versions.json *)
  versions_npm : string -> string;
  (* helpers *)
  replaceHomeDir : string -> string;
  jsonStringify : value -> string;
  (* paths.ts *)
  ensureDefaultAquaJSPath : M string;
  ensureDefaultAquaTSPath : M string;
  ensureDefaultJSDirPath : M string;
  ensureDefaultTSDirPath : M string;
  ensureFluenceAquaServicesPath : M string;
  ensureVSCodeExtensionsJsonPath : M string;
  getGitignorePath : M string;
  (* prompt.ts *)
  input : string -> World -> result string;
  list_prompt : string -> list string -> World -> result Template;
  (* commandObj.ts *)
  isInteractive : bool;
  (* configs and Aqua helpers *)
  initNewFluenceConfig : M InitializedConfig;
  initNewWorkersConfig : M InitializedConfig;
  ensureAquaFileWithWorkerInfo : InitializedConfig -> InitializedConfig -> M unit;
  ensureAquaImports : bool -> option InitializedConfig -> M unit;
  stringify : value -> string;
  (* the platform *)
  process_cwd : string;
  path_resolve : string -> string;
  path_join : list string -> string;
  path_relative : string -> string -> string;
  JSON_stringify : value -> option nat -> string;
  yellow : string -> string;
  magentaBright : string -> string
}.

Section InitProject.

Context `{Collaborators}.

(** Asking the user: the answer, the world unchanged. *)
Definition ask {A : Type} (prompt : World -> result A) : M A :=
  fun w => (prompt w, w).

Definition selectTemplate : M Template :=
  ask (list_prompt "Select template" (map template_name TEMPLATES)).

(** [const { template = await selectTemplate(), ... } = options]. *)
Definition chooseTemplate (options : InitArg) : M Template :=
  match template options with
  | Some t => mret t
  | None => selectTemplate
  end.

(** The [projectPath] constant of [init]. *)
Definition chooseProjectPath (options : InitArg) : M string :=
  match maybeProjectPath options, isInteractive with
  | None, false => mret process_cwd
  | Some p, _ => mret (path_resolve p)
  | None, true =>
      p ← ask (input "Enter project path or press enter to init in the current directory:");
      mret (path_resolve p)
  end.

(** [existsSync(p) && (await stat(p)).isDirectory() &&
     (await readdir(p)).length > 0], evaluated left to right. *)
Definition isNonEmptyDirectory (p : string) : M bool :=
  w ← get_world;
  if existsSync p w then
    st ← stat p;
    if isDirectory st then
      names ← readdir p;
      mret (0 <? length names)%nat
    else mret false
  else mret false.

Definition PACKAGE_JSON (isJS : bool) (indexFileName : string) : value :=
  VObj
    [("type", VStr "module");
     ("version", VStr "1.0.0");
     ("description", VStr "");
     ("main", VStr indexFileName);
     ("scripts",
      VObj [("start",
             VStr ((if isJS then "node" else "ts-node") +:+ " " +:+
                   path_join [SRC_DIR_NAME; indexFileName]))]);
     ("keywords", VArr [VStr "fluence"]);
     ("author", VStr "");
     ("license", VStr "ISC");
     ("dependencies",
      VObj (js_spread []
              ([(JS_CLIENT_NODE_NPM_DEPENDENCY,
                 VStr (versions_npm JS_CLIENT_NODE_NPM_DEPENDENCY));
                (JS_CLIENT_API_NPM_DEPENDENCY,
                 VStr (versions_npm JS_CLIENT_API_NPM_DEPENDENCY));
                (FLUENCE_NETWORK_ENVIRONMENT_NPM_DEPENDENCY,
                 VStr (versions_npm FLUENCE_NETWORK_ENVIRONMENT_NPM_DEPENDENCY))]
               ++ (if isJS then []
                   else [("ts-node", VStr TS_NODE_RECOMMENDED_VERSION);
                         ("typescript", VStr TYPESCRIPT_RECOMMENDED_VERSION)]))))].

Definition TS_CONFIG : value :=
  VObj
    [("compilerOptions",
      VObj [("target", VStr "es2022");
            ("module", VStr "es2022");
            ("strict", VBool true);
            ("skipLibCheck", VBool true);
            ("moduleResolution", VStr "nodenext")]);
     ("ts-node", VObj [("esm", VBool true)])].

(** The project config is one object shared with the caller: the edited
    handle is what the caller goes on with. *)
Definition initTSorJSProject (isJS : bool) (fluenceConfig : InitializedConfig)
  : M InitializedConfig :=
  defaultAquaTSorJSPath ←
    (if isJS then ensureDefaultAquaJSPath else ensureDefaultAquaTSPath);
  w ← get_world;
  let defaultAquaTSorJSPathRelative :=
    path_relative (projectRootDir w) defaultAquaTSorJSPath in
  defaultTSorJSDirPath ←
    (if isJS then ensureDefaultJSDirPath else ensureDefaultTSDirPath);
  let indexFileName := if isJS then INDEX_JS_FILE_NAME else INDEX_TS_FILE_NAME in
  writeFile (path_join [defaultTSorJSDirPath; PACKAGE_JSON_FILE_NAME])
            (JSON_stringify (PACKAGE_JSON isJS indexFileName) (Some 2%nat) +:+ newline);;
  writeFile (path_join [defaultTSorJSDirPath; SRC_DIR_NAME; indexFileName])
            TEMPLATE_INDEX_FILE_CONTENT;;
  edited ←
    (if isJS then
       mret (assign "aquaOutputJSPath" (VStr defaultAquaTSorJSPathRelative) fluenceConfig)
     else
       writeFile (path_join [defaultTSorJSDirPath; SRC_DIR_NAME; TS_CONFIG_FILE_NAME])
                 (JSON_stringify TS_CONFIG None);;
       mret (assign "aquaOutputTSPath" (VStr defaultAquaTSorJSPathRelative) fluenceConfig));
  commit stringify edited;;
  mret edited.

Definition directoryNotEmpty (projectPath : string) : string :=
  "Directory " +:+ yellow projectPath +:+
  " is not empty. Please, init in an empty directory.".

Definition init (options : InitArg) : M InitializedConfig :=
  template ← chooseTemplate options;
  Countly_add_event ("init:template:" +:+ template_name template);;
  projectPath ← chooseProjectPath options;
  nonEmpty ← isNonEmptyDirectory projectPath;
  if (nonEmpty : bool) then commandObj_error (directoryNotEmpty projectPath)
  else
    mkdir_recursive projectPath;;
    setProjectRootDir projectPath;;
    servicesPath ← ensureFluenceAquaServicesPath;
    writeFile servicesPath "";;
    fluenceConfig ← initNewFluenceConfig;
    fluenceConfig ←
      match template with
      | minimal => mret fluenceConfig
      | js => initTSorJSProject true fluenceConfig
      | ts => initTSorJSProject false fluenceConfig
      end;
    extensionsPath ← ensureVSCodeExtensionsJsonPath;
    writeFile extensionsPath
      (jsonStringify
         (VObj [("recommendations",
                 VArr [VStr "redhat.vscode-yaml"; VStr "FluenceLabs.aqua"])])
       +:+ newline);;
    ensureAquaImports true (Some fluenceConfig);;
    gitignorePath ← getGitignorePath;
    writeFile gitignorePath RECOMMENDED_GITIGNORE_CONTENT;;
    workersConfig ← initNewWorkersConfig;
    ensureAquaFileWithWorkerInfo workersConfig fluenceConfig;;
    commandObj_log
      (magentaBright
         (newline +:+ "Successfully initialized Fluence project template at " +:+
          replaceHomeDir projectPath +:+ newline));;
    mret fluenceConfig.

(** *** The project config is committed with the output path *)

(** When [initTSorJSProject] returns, the edited project config has been
    written to the handle's file, with the Aqua output path assigned. *)
Lemma initTSorJSProject_commits (isJS : bool) (fluenceConfig edited : InitializedConfig)
    (w w' : World) :
  initTSorJSProject isJS fluenceConfig w = (Returned edited, w') ->
  config_path edited = config_path fluenceConfig /\
  readFile (files w') (config_path fluenceConfig)
  = Some (stringify (committedDocument edited)) /\
  exists relative,
    edited = assign (if isJS then "aquaOutputJSPath" else "aquaOutputTSPath")
                    (VStr relative) fluenceConfig.
Proof.
  unfold initTSorJSProject. rewrite run_bind.
  destruct ((if isJS then ensureDefaultAquaJSPath else ensureDefaultAquaTSPath) w)
    as [[aquaPath|f] w1]; [|discriminate].
  rewrite run_bind. unfold get_world. rewrite run_bind.
  destruct ((if isJS then ensureDefaultJSDirPath else ensureDefaultTSDirPath) w1)
    as [[dirPath|f] w2]; [|discriminate].
  destruct isJS; cbn; intros [= <- <-]; cbn;
    (split; [reflexivity|]); (split; [|eauto]);
    unfold readFile; now rewrite lookup_insert_eq.
Qed.

(** *** The emptiness check comes first *)

Lemma chooseTemplate_world (options : InitArg) (w : World) :
  snd (chooseTemplate options w) = w.
Proof. unfold chooseTemplate. now destruct (template options). Qed.

Lemma chooseProjectPath_world (options : InitArg) (w : World) :
  snd (chooseProjectPath options w) = w.
Proof.
  unfold chooseProjectPath.
  destruct (maybeProjectPath options), isInteractive; try reflexivity.
  rewrite run_bind. unfold ask. now destruct (input _ w).
Qed.

(** The check answers [true] exactly for an existing directory with entries. *)
Lemma isNonEmptyDirectory_run (p : string) (w : World) :
  isNonEmptyDirectory p w =
  (Returned
     match files w !! p with
     | Some Dir => (0 <? length (entries_of (files w) p))%nat
     | _ => false
     end, w).
Proof.
  unfold isNonEmptyDirectory. rewrite run_bind. unfold get_world, existsSync.
  destruct (files w !! p) as [[content|]|] eqn:E.
  - rewrite run_bind. unfold stat. now rewrite E.
  - rewrite run_bind. unfold stat. rewrite E. cbn [isDirectory].
    rewrite run_bind. unfold readdir. now rewrite E.
  - reflexivity.
Qed.

(** C9: when the chosen project path is an existing directory with at
    least one entry, [init] stops with the error that names the directory;
    the only thing it has done by then is record the analytics event: no
    file or directory is written and no config is created. *)
Theorem init_refuses_non_empty_directory (options : InitArg) (w : World)
    (chosen : Template) (projectPath entry : string) :
  let w1 :=
    mkWorld (files w) (projectRootDir w)
            (events w ++ ["init:template:" +:+ template_name chosen]) (output w) in
  chooseTemplate options w = (Returned chosen, w) ->
  chooseProjectPath options w1 = (Returned projectPath, w1) ->
  files w !! projectPath = Some Dir ->
  In entry (entries_of (files w) projectPath) ->
  init options w
  = (Thrown (CommandError
               ("Directory " +:+ yellow projectPath +:+
                " is not empty. Please, init in an empty directory.")), w1) /\
  files w1 = files w.
Proof.
  intros w1 Htemplate Hpath Hdir Hentry.
  split; [|reflexivity].
  unfold init. rewrite run_bind, Htemplate.
  rewrite run_bind. unfold Countly_add_event. fold w1.
  rewrite run_bind, Hpath.
  rewrite run_bind, isNonEmptyDirectory_run.
  change (files w1) with (files w). rewrite Hdir.
  destruct (entries_of (files w) projectPath); [destruct Hentry|].
  reflexivity.
Qed.

(** *** Further properties of the scaffolding *)

(** X8: when the chosen project path is an existing regular file, the
    emptiness check lets it through and [init] fails in [mkdir] with EEXIST;
    nothing has been written by then. *)
Theorem init_on_a_file_fails_in_mkdir (options : InitArg) (w : World)
    (chosen : Template) (projectPath content : string) :
  let w1 :=
    mkWorld (files w) (projectRootDir w)
            (events w ++ ["init:template:" +:+ template_name chosen]) (output w) in
  chooseTemplate options w = (Returned chosen, w) ->
  chooseProjectPath options w1 = (Returned projectPath, w1) ->
  projectPath <> EmptyString ->
  files w !! projectPath = Some (File content) ->
  init options w = (Thrown (SystemError "EEXIST" projectPath), w1).
Proof.
  intros w1 Htemplate Hpath Hne Hfile.
  unfold init. rewrite run_bind, Htemplate.
  rewrite run_bind. unfold Countly_add_event. fold w1.
  rewrite run_bind, Hpath.
  rewrite run_bind, isNonEmptyDirectory_run.
  change (files w1) with (files w). rewrite Hfile.
  rewrite run_bind.
  now rewrite (mkdir_recursive_on_file projectPath content w1 Hne Hfile).
Qed.

(** X9: [init] returns a config only if the project path did not exist or
    was an empty directory when it started. *)
Theorem init_returns_only_on_fresh_path (options : InitArg) (w w' : World)
    (chosen : Template) (projectPath : string) (h : InitializedConfig) :
  let w1 :=
    mkWorld (files w) (projectRootDir w)
            (events w ++ ["init:template:" +:+ template_name chosen]) (output w) in
  chooseTemplate options w = (Returned chosen, w) ->
  chooseProjectPath options w1 = (Returned projectPath, w1) ->
  projectPath <> EmptyString ->
  init options w = (Returned h, w') ->
  files w !! projectPath = None \/
  (files w !! projectPath = Some Dir /\ entries_of (files w) projectPath = []).
Proof.
  intros w1 Htemplate Hpath Hne Hinit.
  destruct (files w !! projectPath) as [[content|]|] eqn:Hnode; [| |now left].
  - exfalso.
    unfold init in Hinit. rewrite run_bind, Htemplate in Hinit.
    rewrite run_bind in Hinit. unfold Countly_add_event in Hinit. fold w1 in Hinit.
    rewrite run_bind, Hpath in Hinit.
    rewrite run_bind, isNonEmptyDirectory_run in Hinit.
    change (files w1) with (files w) in Hinit. rewrite Hnode in Hinit.
    rewrite run_bind in Hinit.
    now rewrite (mkdir_recursive_on_file projectPath content w1 Hne Hnode) in Hinit.
  - right. split; [reflexivity|].
    unfold init in Hinit. rewrite run_bind, Htemplate in Hinit.
    rewrite run_bind in Hinit. unfold Countly_add_event in Hinit. fold w1 in Hinit.
    rewrite run_bind, Hpath in Hinit.
    rewrite run_bind, isNonEmptyDirectory_run in Hinit.
    change (files w1) with (files w) in Hinit. rewrite Hnode in Hinit.
    destruct (entries_of (files w) projectPath); [reflexivity|discriminate].
Qed.

(** One awaited step of a computation that is known to return. *)
Ltac step_returned H :=
  rewrite run_bind in H;
  lazymatch type of H with
  | (let (_, _) := ?m in _) = _ =>
      let E := fresh "Hstep" in
      destruct m as [[?|?] ?] eqn:E; [|discriminate H]
  end.

(** X10: [initTSorJSProject] assigns exactly one field of the project
    config, [aquaOutputJSPath] for JS and [aquaOutputTSPath] for TS, leaves
    every other field as it was, and ends by committing the edited config
    to its file. *)
Theorem initTSorJSProject_edits_one_field (isJS : bool)
    (fluenceConfig edited : InitializedConfig) (w w' : World) :
  initTSorJSProject isJS fluenceConfig w = (Returned edited, w') ->
  let field := if isJS then "aquaOutputJSPath" else "aquaOutputTSPath" in
  (exists relative, lookup_key field (config edited) = Some (VStr relative)) /\
  (forall k, k <> field ->
     lookup_key k (config edited) = lookup_key k (config fluenceConfig)) /\
  config_path edited = config_path fluenceConfig /\
  readFile (files w') (config_path fluenceConfig)
  = Some (stringify (committedDocument edited)).
Proof.
  intros Hrun field.
  destruct (initTSorJSProject_commits _ _ _ _ _ Hrun) as (Hp & Hfile & relative & ->).
  split; [exists relative; apply lookup_js_assign_eq|].
  split; [|split; [exact Hp|exact Hfile]].
  intros k Hne. simpl. apply lookup_js_assign_ne.
  intros E. apply Hne. subst field. symmetry. exact E.
Qed.

(** X11: the config [init] returns is the new project config: as
    [initNewFluenceConfig] made it for the minimal template, and with the
    JS or TS output path assigned for the other two. *)
Theorem init_returns_the_project_config (options : InitArg) (w w' : World)
    (chosen : Template) (h : InitializedConfig) :
  chooseTemplate options w = (Returned chosen, w) ->
  init options w = (Returned h, w') ->
  exists (created : InitializedConfig) (w0 w0' : World),
    initNewFluenceConfig w0 = (Returned created, w0') /\
    match chosen with
    | minimal => h = created
    | js => exists relative, h = assign "aquaOutputJSPath" (VStr relative) created
    | ts => exists relative, h = assign "aquaOutputTSPath" (VStr relative) created
    end.
Proof.
  intros Htemplate Hinit.
  unfold init in Hinit. rewrite run_bind, Htemplate in Hinit.
  rewrite run_bind in Hinit. unfold Countly_add_event in Hinit.
  step_returned Hinit.
  rewrite run_bind, isNonEmptyDirectory_run in Hinit.
  match type of Hinit with
  | (if ?b then _ else _) _ = _ => destruct b; [discriminate Hinit|]
  end.
  step_returned Hinit.
  rewrite run_bind in Hinit. unfold setProjectRootDir in Hinit.
  step_returned Hinit.
  rewrite run_bind in Hinit. unfold writeFile at 1 in Hinit.
  step_returned Hinit.
  match goal with
  | E : initNewFluenceConfig ?w0 = (Returned ?created, ?w0') |- _ =>
      exists created, w0, w0'; split; [exact E|]
  end.
  step_returned Hinit.
  repeat (first [ step_returned Hinit
                | rewrite run_bind in Hinit; unfold writeFile at 1 in Hinit ]).
  unfold commandObj_log in Hinit. rewrite run_ret in Hinit.
  injection Hinit as <- _.
  destruct chosen.
  - rewrite run_ret in Hstep3. now injection Hstep3 as <- _.
  - destruct (initTSorJSProject_commits _ _ _ _ _ Hstep3) as (_ & _ & relative & ->).
    now exists relative.
  - destruct (initTSorJSProject_commits _ _ _ _ _ Hstep3) as (_ & _ & relative & ->).
    now exists relative.
Qed.

End InitProject.

Section EnsureTemplate.

Context `{Collaborators}.

(** [isTemplate] of const.ts, the type guard of [Template], is outside the
    sources: a parameter, answering with the template the value is, if it is
    one.  [undefined] is [None]. *)
Variable isTemplate : option string -> option Template.

Definition unknownTemplate (templateOrUnknown : string) : string :=
  "Unknown template: " +:+ yellow templateOrUnknown +:+
  ". Available templates: " +:+ String.concat ", " (map template_name TEMPLATES).

Definition ensureTemplate (templateOrUnknown : option string) : M Template :=
  match isTemplate templateOrUnknown with
  | Some t => mret t
  | None =>
      match templateOrUnknown with
      | Some unknown => commandObj_warn (unknownTemplate unknown);; selectTemplate
      | None => selectTemplate
      end
  end.

(** [ensureTemplate] returns a valid template as it is, without asking
    and without a warning; otherwise it asks the user, after one warning
    that names the value when a string was given.  It changes nothing but
    the output. *)
Theorem ensureTemplate_warns_on_unknown_string (templateOrUnknown : option string)
    (w : World) :
  exists r warnings,
    ensureTemplate templateOrUnknown w
    = (r, mkWorld (files w) (projectRootDir w) (events w) (output w ++ warnings)) /\
    match isTemplate templateOrUnknown, templateOrUnknown with
    | Some t, _ => r = Returned t /\ warnings = []
    | None, Some unknown =>
        r = fst (selectTemplate
                   (mkWorld (files w) (projectRootDir w) (events w)
                            (output w ++ [unknownTemplate unknown]))) /\
        warnings = [unknownTemplate unknown]
    | None, None => r = fst (selectTemplate w) /\ warnings = []
    end.
Proof.
  unfold ensureTemplate.
  destruct (isTemplate templateOrUnknown) as [t|].
  - exists (Returned t), []. rewrite app_nil_r. now destruct w.
  - destruct templateOrUnknown as [unknown|].
    + eexists _, [unknownTemplate unknown]. rewrite run_bind.
      unfold commandObj_warn, commandObj_log, selectTemplate, ask.
      split; [reflexivity|]. split; reflexivity.
    + eexists _, []. rewrite app_nil_r. unfold selectTemplate, ask.
      split; [now destruct w|]. split; reflexivity.
Qed.

End EnsureTemplate.

End Init.

(** ** Environment variables ([setupEnvironment.ts]) *)

Module SetupEnvironment.

Definition FLUENCE_ENV : string := "FLUENCE_ENV".

(** [T] is a subtype of the strings: the value returned on the valid branch
    is the variable's own string. *)
Definition resolveEnvVariable (env : gmap string string) (variableName : string)
    (isValid : string -> bool) (defaultVariable : string) : string + string :=
  match env !! variableName with
  | None => inr defaultVariable
  | Some variable =>
      if isValid variable then inr variable
      else inl ("Invalid environment variable: " +:+ variableName +:+ "=" +:+
                dq +:+ variable +:+ dq)
  end.

Section FluenceEnv.

(** [NETWORKS] is imported from multiaddr.ts, outside the sources. *)
Variable NETWORKS : list string.

Definition isFluenceEnv (v : string) : bool :=
  existsb (fun n => String.eqb n v) NETWORKS || String.eqb v "local".

(** The module's top-level statement, on the environment as [dotenv.config()]
    left it: the new environment, or the message of the error thrown. *)
Definition setupEnvironment (env : gmap string string) : string + gmap string string :=
  match resolveEnvVariable env FLUENCE_ENV isFluenceEnv "kras" with
  | inr v => inr (<[FLUENCE_ENV := v]> env)
  | inl message => inl message
  end.

(** C10: [resolveEnvVariable] returns the default when the variable is unset
    and only then lets the default decide the result (a variable that is
    set, to another value than the default, never yields the default);
    returns the variable's value when the predicate accepts it; and throws
    exactly when the variable is set and rejected, with a message naming the
    variable and its value.
    So whenever the module's initialisation completes, FLUENCE_ENV holds a
    network name, "local" or the default "kras". *)
Theorem resolveEnvVariable_cases (env : gmap string string) (variableName : string)
    (isValid : string -> bool) (defaultVariable : string) :
  (env !! variableName = None ->
   resolveEnvVariable env variableName isValid defaultVariable = inr defaultVariable) /\
  (forall v other,
     env !! variableName = Some v ->
     resolveEnvVariable env variableName isValid defaultVariable
     = resolveEnvVariable env variableName isValid other) /\
  (forall v,
     env !! variableName = Some v -> v <> defaultVariable ->
     resolveEnvVariable env variableName isValid defaultVariable <> inr defaultVariable) /\
  (forall v,
     env !! variableName = Some v -> isValid v = true ->
     resolveEnvVariable env variableName isValid defaultVariable = inr v) /\
  (forall message,
     resolveEnvVariable env variableName isValid defaultVariable = inl message <->
     exists v,
       env !! variableName = Some v /\ isValid v = false /\
       message = "Invalid environment variable: " +:+ variableName +:+ "=" +:+
                 dq +:+ v +:+ dq) /\
  (forall env',
     setupEnvironment env = inr env' ->
     exists v,
       env' !! FLUENCE_ENV = Some v /\
       (In v NETWORKS \/ v = "local" \/ v = "kras")) /\
  ((exists env', setupEnvironment env = inr env') <->
   match env !! FLUENCE_ENV with
   | None => True
   | Some v => isFluenceEnv v = true
   end).
Proof.
  unfold setupEnvironment, resolveEnvVariable.
  split; [now intros ->|].
  split; [now intros v other ->|].
  split; [intros v -> Hne; destruct (isValid v); congruence|].
  split; [intros v E Hv; now rewrite E, Hv|].
  split.
  { intros message. split.
    - destruct (env !! variableName) as [v|]; [|discriminate].
      destruct (isValid v) eqn:Hv; [discriminate|].
      intros [= <-]. now exists v.
    - intros (v & -> & -> & ->). reflexivity. }
  split.
  { intros env'. destruct (env !! FLUENCE_ENV) as [v|] eqn:E.
    - destruct (isFluenceEnv v) eqn:Hv; [|discriminate].
      intros [= <-]. exists v. rewrite lookup_insert_eq. split; [reflexivity|].
      unfold isFluenceEnv in Hv. apply orb_prop in Hv as [Hn|Hl].
      + left. apply existsb_exists in Hn as (n & Hin & Heq).
        apply String.eqb_eq in Heq. now subst.
      + right; left. now apply String.eqb_eq.
    - intros [= <-]. exists "kras". rewrite lookup_insert_eq. auto. }
  split.
  - intros [env' He]. destruct (env !! FLUENCE_ENV) as [v|]; [|exact I].
    destruct (isFluenceEnv v); [reflexivity|discriminate].
  - destruct (env !! FLUENCE_ENV) as [v|].
    + intros ->. eauto.
    + intros _. eauto.
Qed.


(** X13: the default is written without being checked: initialising again
    on the resulting environment succeeds, and changes nothing, exactly when
    FLUENCE_ENV was set in the first place or "kras" is itself a valid
    value; otherwise the second initialisation throws. *)
Theorem setupEnvironment_again (env env' : gmap string string) :
  setupEnvironment env = inr env' ->
  (setupEnvironment env' = inr env' <->
   is_Some (env !! FLUENCE_ENV) \/ isFluenceEnv "kras" = true) /\
  (setupEnvironment env' = inr env' \/
   setupEnvironment env'
   = inl ("Invalid environment variable: " +:+ FLUENCE_ENV +:+ "=" +:+
          dq +:+ "kras" +:+ dq)).
Proof.
  unfold setupEnvironment, resolveEnvVariable.
  destruct (env !! FLUENCE_ENV) as [v|] eqn:E.
  - destruct (isFluenceEnv v) eqn:Hv; [|discriminate].
    intros [= <-]. rewrite lookup_insert_eq, Hv, insert_insert_eq.
    split; [|now left]. split; [intros _; left; eauto|reflexivity].
  - intros [= <-]. rewrite lookup_insert_eq.
    destruct (isFluenceEnv "kras") eqn:Hk.
    + rewrite insert_insert_eq. split; [|now left].
      split; [now right|reflexivity].
    + split; [|now right].
      split; [discriminate|]. intros [[? [=]]|[=]].
Qed.

End FluenceEnv.

End SetupEnvironment.

(** ** Deploying deals ([Deploy.run], the loop over the uploaded workers) *)

Module Deploy.

(** A record of the deployed-deals config, with the fields the loop writes. *)
Record DeployedDeal : Type := mkDeployedDeal {
  workerName : string;
  dealAddress : string;
  timestamp : string;
  workerCID : string;
  network : string
}.

(** A deal of the deals config, as the loop reads it. *)
Record Deal : Type := mkDeal {
  deal_workerName : string;
  minWorkers : option Z;
  targetWorkers : option Z
}.

(** A worker of the upload result. *)
Record UploadedWorker : Type := mkUploadedWorker {
  uploaded_name : string;
  definition : string
}.

Record DealUpdateArg : Type := mkDealUpdateArg {
  update_network : string;
  update_privKey : option string;
  update_appCID : string;
  update_dealAddress : string
}.

Record DealCreateArg : Type := mkDealCreateArg {
  create_network : string;
  create_privKey : option string;
  create_appCID : string;
  create_minWorkers : Z;
  create_targetWorkers : Z
}.

(** [l.findIndex(p)]; [None] stands for -1. *)
Fixpoint findIndex {A : Type} (p : A -> bool) (l : list A) : option nat :=
  match l with
  | [] => None
  | x :: rest => if p x then Some 0%nat else S <$> findIndex p rest
  end.

Definition with_timestamp (t : string) (d : DeployedDeal) : DeployedDeal :=
  mkDeployedDeal (workerName d) (dealAddress d) t (workerCID d) (network d).

Section Run.

(** [MIN_WORKERS] and [TARGET_WORKERS] (deals.ts), [dealCreate] and
    [dealUpdate] (deal.ts), [confirm] (prompt.ts) and the [$commit] of the
    deployed-deals handle (initConfig.ts) are outside the sources:
    parameters, [$commit] taking the in-memory list it is to persist.  The
    clock, the colour and the error of a failed [assert] are the
    platform's. *)
Variable MIN_WORKERS TARGET_WORKERS : Z.
Variable dealCreate : DealCreateArg -> M string.
Variable dealUpdate : DealUpdateArg -> M unit.
Variable confirm : string -> World -> result bool.
Variable commitDeals : list DeployedDeal -> M unit.
Variable toISOString_now : M string.
Variable yellow : string -> string.
Variable AssertionError : failure.

(** What the loop has in scope: the names of [uploadArg.workers], the
    workers of [uploadResult], the deals config, the chain network that was
    resolved, and the private key flag. *)
Variable uploadResult_workers : list UploadedWorker.
Variable dealsConfig_deals : list Deal.
Variable dealsConfig_network : option string.
Variable chainNetwork : string.
Variable privKey : option string.

Definition newline : string := String Yaml.LF EmptyString.

(** [uploadResult.workers.find(...)?.definition]. *)
Definition appCIDOf (name : string) : option string :=
  definition <$> List.find (fun worker => String.eqb name (uploaded_name worker))
                           uploadResult_workers.

Definition dealOf (name : string) : option Deal :=
  List.find (fun d => String.eqb (deal_workerName d) name) dealsConfig_deals.

(** The record the loop looks at: the first one with the worker's name. *)
Definition previouslyDeployed (name : string) (deployed : list DeployedDeal)
  : option (nat * DeployedDeal) :=
  match findIndex (fun d => String.eqb (workerName d) name) deployed with
  | Some index =>
      match deployed !! index with
      | Some d => Some (index, d)
      | None => None
      end
  | None => None
  end.

(** The condition of the [if]: a previous record, on the same network, and
    the user's consent, asked only when the first two hold. *)
Definition updateQuestion (name : string) : string :=
  "There is a previously deployed deal for worker " +:+ yellow name +:+
  ". Do you want to update this existing deal?".

Definition shouldUpdate (name : string) (deployed : list DeployedDeal)
  : M (option (nat * DeployedDeal)) :=
  match previouslyDeployed name deployed with
  | Some (index, previous) =>
      if String.eqb chainNetwork (network previous) then
        yes ← (fun w => (confirm (updateQuestion name) w, w));
        mret (if (yes : bool) then Some (index, previous) else None)
      else mret None
  | None => mret None
  end.

(** One iteration of the loop: the in-memory list of deployed deals after
    it. *)
Definition deployWorker (name : string) (deployed : list DeployedDeal)
  : M (list DeployedDeal) :=
  match appCIDOf name with
  | None => throw AssertionError
  | Some appCID =>
      match dealOf name with
      | None => throw AssertionError
      | Some deal =>
          update ← shouldUpdate name deployed;
          match update with
          | Some (index, previous) =>
              commandObj_log (newline +:+ "Updating deal for worker " +:+
                              yellow name +:+ newline);;
              dealUpdate (mkDealUpdateArg chainNetwork privKey appCID
                                          (dealAddress previous));;
              now ← toISOString_now;
              let updated := <[index := with_timestamp now previous]> deployed in
              commitDeals updated;;
              mret updated
          | None =>
              commandObj_log (newline +:+ "Creating deal for worker " +:+
                              yellow name +:+ newline);;
              address ← dealCreate
                          (mkDealCreateArg (default "testnet" dealsConfig_network)
                             privKey appCID
                             (default MIN_WORKERS (minWorkers deal))
                             (default TARGET_WORKERS (targetWorkers deal)));
              now ← toISOString_now;
              let pushed :=
                deployed ++ [mkDeployedDeal name address now appCID chainNetwork] in
              commitDeals pushed;;
              mret pushed
          end
      end
  end.

(** The loop [for (const { name: workerName } of [...uploadArg.workers])]. *)
Fixpoint deployWorkers (workers : list string) (deployed : list DeployedDeal)
  : M (list DeployedDeal) :=
  match workers with
  | [] => mret deployed
  | name :: rest =>
      deployed' ← deployWorker name deployed;
      deployWorkers rest deployed'
  end.

(** *** What the loop does to the list of deployed deals *)

Lemma findIndex_Some {A : Type} (p : A -> bool) (l : list A) (i : nat) :
  findIndex p l = Some i -> exists x, l !! i = Some x /\ p x = true.
Proof.
  revert i. induction l as [|y l IH]; intros i; simpl; [discriminate|].
  destruct (p y) eqn:Hy.
  - intros [= <-]. eauto.
  - destruct (findIndex p l) as [j|]; [|discriminate].
    intros [= <-]. apply (IH j eq_refl).
Qed.

Lemma previouslyDeployed_Some (name : string) (deployed : list DeployedDeal)
    (index : nat) (previous : DeployedDeal) :
  previouslyDeployed name deployed = Some (index, previous) ->
  deployed !! index = Some previous /\ workerName previous = name.
Proof.
  unfold previouslyDeployed.
  destruct (findIndex _ deployed) as [i|] eqn:Hi; [|discriminate].
  apply findIndex_Some in Hi as (x & Hx & Hp). rewrite Hx.
  intros [= <- <-]. split; [exact Hx|]. now apply String.eqb_eq.
Qed.

(** The two ways an iteration returns: the found record re-stamped in
    place, or a new record appended. *)
Lemma deployWorker_returns (name : string) (deployed deployed' : list DeployedDeal)
    (w w' : World) :
  deployWorker name deployed w = (Returned deployed', w') ->
  exists appCID,
    appCIDOf name = Some appCID /\
    ((exists index previous now,
        deployed !! index = Some previous /\
        workerName previous = name /\
        network previous = chainNetwork /\
        deployed' = <[index := with_timestamp now previous]> deployed) \/
     (exists address now,
        deployed' = deployed ++ [mkDeployedDeal name address now appCID chainNetwork])).
Proof.
  unfold deployWorker.
  destruct (appCIDOf name) as [appCID|]; [|discriminate].
  destruct (dealOf name) as [deal|]; [|discriminate].
  intros Hrun. exists appCID. split; [reflexivity|].
  rewrite run_bind in Hrun.
  destruct (shouldUpdate name deployed w) as [[[[index previous]|]|f] w0] eqn:Hupd;
    [| |discriminate Hrun].
  - left.
    assert (Hprev : previouslyDeployed name deployed = Some (index, previous) /\
                    String.eqb chainNetwork (network previous) = true).
    { unfold shouldUpdate in Hupd.
      destruct (previouslyDeployed name deployed) as [[i d]|]; [|discriminate Hupd].
      destruct (String.eqb chainNetwork (network d)) eqn:Hn; [|discriminate Hupd].
      rewrite run_bind in Hupd.
      destruct (confirm _ w) as [[]|]; try discriminate Hupd.
      rewrite run_ret in Hupd. now injection Hupd as -> -> _. }
    destruct Hprev as [Hprev Hnet].
    apply previouslyDeployed_Some in Hprev as [Hlookup Hname].
    apply String.eqb_eq in Hnet.
    rewrite run_bind in Hrun. unfold commandObj_log at 1 in Hrun.
    rewrite run_bind in Hrun.
    destruct (dealUpdate _ _) as [[[]|f] w1]; [|discriminate Hrun].
    rewrite run_bind in Hrun.
    destruct (toISOString_now w1) as [[now|f] w2]; [|discriminate Hrun].
    rewrite run_bind in Hrun.
    destruct (commitDeals _ w2) as [[[]|f] w3]; [|discriminate Hrun].
    rewrite run_ret in Hrun. injection Hrun as <- _.
    exists index, previous, now. auto.
  - right.
    rewrite run_bind in Hrun. unfold commandObj_log at 1 in Hrun.
    rewrite run_bind in Hrun.
    destruct (dealCreate _ _) as [[address|f] w1]; [|discriminate Hrun].
    rewrite run_bind in Hrun.
    destruct (toISOString_now w1) as [[now|f] w2]; [|discriminate Hrun].
    rewrite run_bind in Hrun.
    destruct (commitDeals _ w2) as [[[]|f] w3]; [|discriminate Hrun].
    rewrite run_ret in Hrun. injection Hrun as <- _.
    now exists address, now.
Qed.

(** Every field but the timestamp is the same. *)
Definition same_deal (d d' : DeployedDeal) : Prop :=
  workerName d' = workerName d /\ dealAddress d' = dealAddress d /\
  workerCID d' = workerCID d /\ network d' = network d.

(** The records of [old] are still in place in [new], re-stamped at most. *)
Definition keeps (old new : list DeployedDeal) : Prop :=
  (length old <= length new)%nat /\
  forall i d, old !! i = Some d -> exists d', new !! i = Some d' /\ same_deal d d'.

Lemma keeps_refl (l : list DeployedDeal) : keeps l l.
Proof. split; [lia|]. intros i d Hd. exists d. now repeat split. Qed.

Lemma keeps_trans (a b c : list DeployedDeal) : keeps a b -> keeps b c -> keeps a c.
Proof.
  intros [Hl1 H1] [Hl2 H2]. split; [lia|].
  intros i d Hd. destruct (H1 i d Hd) as (d1 & Hd1 & S1).
  destruct (H2 i d1 Hd1) as (d2 & Hd2 & S2).
  exists d2. split; [exact Hd2|].
  destruct S1 as (? & ? & ? & ?), S2 as (? & ? & ? & ?).
  repeat split; congruence.
Qed.

Lemma deployWorker_keeps (name : string) (deployed deployed' : list DeployedDeal)
    (w w' : World) :
  deployWorker name deployed w = (Returned deployed', w') ->
  keeps deployed deployed' /\
  (length deployed' <= S (length deployed))%nat /\
  exists d, In d deployed' /\ workerName d = name /\ network d = chainNetwork.
Proof.
  intros Hrun.
  destruct (deployWorker_returns _ _ _ _ _ Hrun)
    as (appCID & _ & [(index & previous & now & Hl & Hn & Hnet & ->)
                     |(address & now & ->)]).
  - split; [|split].
    + split; [now rewrite length_insert|].
      intros i d Hd. destruct (decide (i = index)) as [->|Hne].
      * exists (with_timestamp now previous).
        rewrite list_lookup_insert_eq by (eapply lookup_lt_Some; eauto).
        split; [reflexivity|]. replace d with previous by congruence.
        now repeat split.
      * exists d. rewrite list_lookup_insert_ne by congruence.
        split; [exact Hd|now repeat split].
    + rewrite length_insert. lia.
    + exists (with_timestamp now previous). split; [|now split].
      apply list_elem_of_In, list_elem_of_lookup. exists index.
      apply list_lookup_insert_eq. eapply lookup_lt_Some; eauto.
  - split; [|split].
    + split; [rewrite length_app; simpl; lia|].
      intros i d Hd. exists d. split; [|now repeat split].
      now apply lookup_app_l_Some.
    + rewrite length_app. simpl. lia.
    + eexists. split; [apply in_or_app; right; now left|now split].
Qed.

(** X14: whatever the loop does, it never removes or moves a record of the
    deployed deals and never changes a record's worker, address, CID or
    network: an update re-stamps the record and nothing else, so the stored
    CID stays the one of the first deployment.  The list grows by at most
    one record per worker. *)
Theorem deployWorkers_keeps_records (workers : list string)
    (deployed deployed' : list DeployedDeal) (w w' : World) :
  deployWorkers workers deployed w = (Returned deployed', w') ->
  (length deployed <= length deployed' <= length deployed + length workers)%nat /\
  forall i d,
    deployed !! i = Some d ->
    exists d',
      deployed' !! i = Some d' /\
      workerName d' = workerName d /\ dealAddress d' = dealAddress d /\
      workerCID d' = workerCID d /\ network d' = network d.
Proof.
  revert deployed w.
  assert (Hgen : forall deployed w,
            deployWorkers workers deployed w = (Returned deployed', w') ->
            keeps deployed deployed' /\
            (length deployed' <= length deployed + length workers)%nat).
  { induction workers as [|name rest IH]; intros deployed w; simpl.
    - rewrite run_ret. intros [= <- _]. split; [apply keeps_refl|lia].
    - rewrite run_bind.
      destruct (deployWorker name deployed w) as [[deployed1|f] w1] eqn:Hstep;
        [|discriminate].
      intros Hrest. destruct (deployWorker_keeps _ _ _ _ _ Hstep) as (Hk & Hlen & _).
      destruct (IH _ _ Hrest) as [Hk' Hlen'].
      split; [eapply keeps_trans; eauto|lia]. }
  intros deployed w Hrun. destruct (Hgen _ _ Hrun) as [[Hl Hk] Hu].
  split; [lia|exact Hk].
Qed.

(** X15: when the loop returns, every worker it was given has a record
    under its name on the resolved network. *)
Theorem deployWorkers_records_every_worker (workers : list string)
    (deployed deployed' : list DeployedDeal) (w w' : World) (name : string) :
  deployWorkers workers deployed w = (Returned deployed', w') ->
  In name workers ->
  exists d, In d deployed' /\ workerName d = name /\ network d = chainNetwork.
Proof.
  revert deployed w. induction workers as [|first rest IH]; intros deployed w;
    simpl; [intros _ []|].
  rewrite run_bind.
  destruct (deployWorker first deployed w) as [[deployed1|f] w1] eqn:Hstep;
    [|discriminate].
  intros Hrest [->|Hin]; [|now apply (IH _ _ Hrest)].
  destruct (deployWorker_keeps _ _ _ _ _ Hstep) as (_ & _ & d & Hd & Hn & Hnet).
  assert (Hk : keeps deployed1 deployed').
  { clear -Hrest. revert deployed1 w1 Hrest.
    induction rest as [|name rest IH]; intros deployed1 w1; simpl.
    - rewrite run_ret. intros [= <- _]. apply keeps_refl.
    - rewrite run_bind.
      destruct (deployWorker name deployed1 w1) as [[deployed2|f] w2] eqn:Hstep;
        [|discriminate].
      intros Hrest. eapply keeps_trans; [|eapply IH, Hrest].
      now destruct (deployWorker_keeps _ _ _ _ _ Hstep). }
  apply list_elem_of_In, list_elem_of_lookup in Hd as [i Hi].
  destruct Hk as [_ Hk]. destruct (Hk i d Hi) as (d' & Hd' & Hs1 & _ & _ & Hs4).
  exists d'. split; [|split; congruence].
  apply list_elem_of_In, list_elem_of_lookup. eauto.
Qed.

Lemma deployWorkers_app (before after : list string) (deployed : list DeployedDeal)
    (w : World) :
  deployWorkers (before ++ after) deployed w =
  match deployWorkers before deployed w with
  | (Returned deployed1, w1) => deployWorkers after deployed1 w1
  | (Thrown f, w1) => (Thrown f, w1)
  end.
Proof.
  revert deployed w. induction before as [|name rest IH]; intros deployed w.
  - simpl app. simpl deployWorkers at 2. now rewrite run_ret.
  - simpl. rewrite !run_bind.
    destruct (deployWorker name deployed w) as [[deployed1|f] w1]; [apply IH|reflexivity].
Qed.

(** X16: a worker without an upload result, or without a deal in the deals
    config, stops the loop with the assertion's error: the workers before it
    have been deployed and committed, for this one nothing is logged, asked,
    sent or committed, and the workers after it are not reached. *)
Theorem deployWorkers_stops_at_missing_worker (before after : list string)
    (name : string) (deployed : list DeployedDeal) (w : World) :
  appCIDOf name = None \/ dealOf name = None ->
  deployWorkers (before ++ name :: after) deployed w =
  match deployWorkers before deployed w with
  | (Returned _, w1) => (Thrown AssertionError, w1)
  | (Thrown f, w1) => (Thrown f, w1)
  end.
Proof.
  intros Hmissing. rewrite deployWorkers_app.
  destruct (deployWorkers before deployed w) as [[deployed1|f] w1]; [|reflexivity].
  simpl. rewrite run_bind. unfold deployWorker.
  destruct Hmissing as [-> | Hdeal]; [reflexivity|].
  rewrite Hdeal. now destruct (appCIDOf name).
Qed.

(** X17: a first deployment: when the workers are distinct and none of
    them has a record on the resolved network, the loop leaves the existing
    records untouched and appends one record per worker, in the order of
    the workers, each with the worker's uploaded CID and the resolved
    network. *)
Theorem deployWorkers_first_deployment (workers : list string)
    (deployed deployed' : list DeployedDeal) (w w' : World) :
  NoDup workers ->
  (forall d, In d deployed -> In (workerName d) workers -> network d <> chainNetwork) ->
  deployWorkers workers deployed w = (Returned deployed', w') ->
  exists created,
    deployed' = deployed ++ created /\
    map workerName created = workers /\
    Forall (fun d => network d = chainNetwork /\
                     appCIDOf (workerName d) = Some (workerCID d)) created.
Proof.
  revert deployed w. induction workers as [|name rest IH]; intros deployed w Hnd Hfresh;
    simpl.
  - rewrite run_ret. intros [= <- _]. exists []. now rewrite app_nil_r.
  - rewrite run_bind.
    destruct (deployWorker name deployed w) as [[deployed1|f] w1] eqn:Hstep;
      [|discriminate].
    intros Hrest. apply NoDup_cons in Hnd as [Hnotin Hnd].
    destruct (deployWorker_returns _ _ _ _ _ Hstep)
      as (appCID & HappCID & [(index & previous & now & Hl & Hn & Hnet & _)
                             |(address & now & ->)]).
    + exfalso. apply (Hfresh previous).
      * apply list_elem_of_In, list_elem_of_lookup. eauto.
      * rewrite Hn. now left.
      * exact Hnet.
    + assert (Hfresh' : forall d,
                In d (deployed ++ [mkDeployedDeal name address now appCID chainNetwork]) ->
                In (workerName d) rest -> network d <> chainNetwork).
      { intros d [Hd|[<-|[]]]%in_app_or Hin.
        - apply Hfresh; [exact Hd|now right].
        - simpl in Hin. exfalso. apply Hnotin. now apply list_elem_of_In. }
      destruct (IH _ _ Hnd Hfresh' Hrest) as (created & -> & Hnames & Hall).
      exists (mkDeployedDeal name address now appCID chainNetwork :: created).
      split; [now rewrite <- app_assoc|].
      split; [simpl; now rewrite Hnames|].
      constructor; [now split|exact Hall].
Qed.

Lemma findIndex_app {A : Type} (p : A -> bool) (l l' : list A) (i : nat) :
  findIndex p l = Some i -> findIndex p (l ++ l') = Some i.
Proof.
  revert i. induction l as [|y l IH]; intros i; simpl; [discriminate|].
  destruct (p y); [easy|].
  destruct (findIndex p l) as [j|]; [|discriminate].
  intros [= <-]. now rewrite (IH j eq_refl).
Qed.

(** X18: declining the update does not leave the deal alone: a new deal is
    created and its record appended, so the worker has two records; the
    lookup by worker name still finds the old one, which is therefore the
    one the next run offers to update. *)
Theorem declined_update_creates_second_record (name : string)
    (deployed deployed' : list DeployedDeal) (index : nat) (previous : DeployedDeal)
    (w w' : World) :
  previouslyDeployed name deployed = Some (index, previous) ->
  network previous = chainNetwork ->
  confirm (updateQuestion name) w = Returned false ->
  deployWorker name deployed w = (Returned deployed', w') ->
  (exists address now appCID,
     appCIDOf name = Some appCID /\
     deployed' = deployed ++ [mkDeployedDeal name address now appCID chainNetwork]) /\
  previouslyDeployed name deployed' = Some (index, previous).
Proof.
  intros Hprev Hnet Hno Hrun.
  assert (Hcreated : exists address now appCID,
             appCIDOf name = Some appCID /\
             deployed' = deployed ++ [mkDeployedDeal name address now appCID chainNetwork]).
  { unfold deployWorker in Hrun.
    destruct (appCIDOf name) as [appCID|]; [|discriminate].
    destruct (dealOf name) as [deal|]; [|discriminate].
    rewrite run_bind in Hrun. unfold shouldUpdate in Hrun.
    rewrite Hprev, Hnet, String.eqb_refl, run_bind, Hno, run_ret in Hrun.
    rewrite run_bind in Hrun. unfold commandObj_log at 1 in Hrun.
    rewrite run_bind in Hrun.
    destruct (dealCreate _ _) as [[address|f] w1]; [|discriminate Hrun].
    rewrite run_bind in Hrun.
    destruct (toISOString_now w1) as [[now|f] w2]; [|discriminate Hrun].
    rewrite run_bind in Hrun.
    destruct (commitDeals _ w2) as [[[]|f] w3]; [|discriminate Hrun].
    rewrite run_ret in Hrun. injection Hrun as <- _.
    now exists address, now, appCID. }
  split; [exact Hcreated|].
  destruct Hcreated as (address & now & appCID & _ & ->).
  pose proof (previouslyDeployed_Some _ _ _ _ Hprev) as [Hlookup _].
  unfold previouslyDeployed in *.
  destruct (findIndex _ deployed) as [i|] eqn:Hi; [|discriminate].
  rewrite (findIndex_app _ _ _ _ Hi).
  destruct (deployed !! i) as [d|] eqn:Hd; [|discriminate].
  now rewrite (lookup_app_l_Some _ _ _ _ Hd).
Qed.



End Run.

(** *** Which network a deal is created and updated on *)

Section Networks.

Variable MIN_WORKERS TARGET_WORKERS : Z.
Variable dealCreate dealCreate' : DealCreateArg -> M string.
Variable dealUpdate dealUpdate' : DealUpdateArg -> M unit.
Variable confirm : string -> World -> result bool.
Variable commitDeals : list DeployedDeal -> M unit.
Variable toISOString_now : M string.
Variable yellow : string -> string.
Variable AssertionError : failure.
Variable uploadResult_workers : list UploadedWorker.
Variable dealsConfig_deals : list Deal.
Variable dealsConfig_network : option string.
Variable chainNetwork : string.
Variable privKey : option string.

(** X19: deals are created on the network of the deals config, [testnet]
    when it has none, and updated on the resolved network, although every
    record is stored with the resolved network: the loop behaves the same
    for any two deal creators that agree on the deals config's network and
    any two deal updaters that agree on the resolved network, whatever
    they do on other networks. *)
Theorem deployWorkers_networks (workers : list string)
    (deployed : list DeployedDeal) (w : World) :
  (forall arg, create_network arg = default "testnet" dealsConfig_network ->
               dealCreate arg = dealCreate' arg) ->
  (forall arg, update_network arg = chainNetwork ->
               dealUpdate arg = dealUpdate' arg) ->
  deployWorkers MIN_WORKERS TARGET_WORKERS dealCreate dealUpdate confirm commitDeals
    toISOString_now yellow AssertionError uploadResult_workers dealsConfig_deals
    dealsConfig_network chainNetwork privKey workers deployed w =
  deployWorkers MIN_WORKERS TARGET_WORKERS dealCreate' dealUpdate' confirm commitDeals
    toISOString_now yellow AssertionError uploadResult_workers dealsConfig_deals
    dealsConfig_network chainNetwork privKey workers deployed w.
Proof.
  intros Hcreate Hupdate. revert deployed w.
  induction workers as [|name rest IH]; intros deployed w; [reflexivity|].
  simpl. rewrite !run_bind.
  assert (Hstep :
    deployWorker MIN_WORKERS TARGET_WORKERS dealCreate dealUpdate confirm commitDeals
      toISOString_now yellow AssertionError uploadResult_workers dealsConfig_deals
      dealsConfig_network chainNetwork privKey name deployed w =
    deployWorker MIN_WORKERS TARGET_WORKERS dealCreate' dealUpdate' confirm commitDeals
      toISOString_now yellow AssertionError uploadResult_workers dealsConfig_deals
      dealsConfig_network chainNetwork privKey name deployed w).
  { unfold deployWorker.
    destruct (appCIDOf _ _) as [appCID|]; [|reflexivity].
    destruct (dealOf _ _) as [deal|]; [|reflexivity].
    rewrite !run_bind.
    destruct (shouldUpdate _ _ _ _ _ w) as [[[[index previous]|]|f] w0]; [| |reflexivity].
    - rewrite !run_bind. unfold commandObj_log. rewrite !run_bind.
      now rewrite Hupdate.
    - rewrite !run_bind. unfold commandObj_log. rewrite !run_bind.
      now rewrite Hcreate. }
  rewrite Hstep.
  destruct (deployWorker _ _ dealCreate' _ _ _ _ _ _ _ _ _ _ _ name deployed w)
    as [[deployed1|f] w1]; [apply IH|reflexivity].
Qed.

End Networks.

End Deploy.

(** ** Commit and open again

    The two places of the sources where a config is edited and committed:
    [initTSorJSProject] assigns the Aqua output path of the project config,
    and the loop of [Deploy.run] stores the deployed deals. *)

Module RoundTrip.

(** A record of the deployed deals as the loop stores it. *)
Definition deal_value (d : Deploy.DeployedDeal) : value :=
  VObj [("workerName", VStr (Deploy.workerName d));
        ("dealAddress", VStr (Deploy.dealAddress d));
        ("timestamp", VStr (Deploy.timestamp d));
        ("workerCID", VStr (Deploy.workerCID d));
        ("network", VStr (Deploy.network d))].

Section Commit.

Variable regexTest : string -> string -> bool.

(** [parse] of the [yaml] package, [None] when it throws. *)
Variable yaml_parse : string -> option value.

Variable getConfigPath : string -> string -> string.

Context `{Init.Collaborators}.

(** The handle of the deployed deals with [deals] as its list. *)
Definition with_deals (h : InitializedConfig) (deals : list Deploy.DeployedDeal)
  : InitializedConfig :=
  assign "deals" (VArr (map deal_value deals)) h.

(** [deployedDealsConfig.$commit()] after the loop has changed the list. *)
Definition commitDeals (h : InitializedConfig) (deals : list Deploy.DeployedDeal)
  : M unit :=
  commit Init.stringify (with_deals h deals).





End Commit.

End RoundTrip.

(** ** A concrete setting

    One choice of the parameters, on which the statements above are run: a
    YAML writer for the subset the reader covers, a name rule, a module
    schema with the properties the default template documents, and a small
    file system. *)

Module Examples.

Import Yaml.

Definition stringify (v : value) : string := Yaml.stringify v.

Definition regexTest (pattern s : string) : bool := all_chars is_ident_char s.

(** A YAML reader that knows the subset of [Yaml] only: on the texts of that
    subset it answers as the package does. *)
Definition yaml_parse (text : string) : option value :=
  match Yaml.parse text with
  | Yaml.Ok doc => Some doc
  | _ => None
  end.

Definition overridableModuleProperties : list (string * schema) :=
  [("envs", SObject [] [] (Some (SString None false)));
   ("loggerEnabled", SBoolean);
   ("loggingMask", SNumber None);
   ("maxHeapSize", SString None false);
   ("mountedBinaries", SObject [] [] (Some (SString None false)));
   ("volumes", SObject [] [] (Some (SString None false)))].

Definition BYTES_PATTERN : string := "^\d+(\.\d+)?(\s?)(kB|KB|kiB|KiB|KIB|mB|MB|miB|MiB|MIB|gB|GB|giB|GiB|GIB)$".

Definition MAX_HEAP_SIZE_DESCRIPTION : string :=
  "Max size of the heap that a module can allocate".

Definition SERVICE_CONFIG_FILE_NAME : string := "service".

Definition AQUA_NAME_REQUIREMENTS : string :=
  "must start with a lowercase letter and contain only letters, numbers, and underscores".

Definition validateAquaName (text : option value) : validity :=
  match text with
  | Some (VStr (String c rest)) =>
      if in_range 97 122 c && all_chars is_ident_char rest then Valid
      else Invalid AQUA_NAME_REQUIREMENTS
  | _ => Invalid AQUA_NAME_REQUIREMENTS
  end.

Definition ensureServiceAbsolutePath (pathOrUrl absolutePath : string) : M string :=
  match pathOrUrl with
  | String "/" _ => mret pathOrUrl
  | _ => mret (absolutePath +:+ "/" +:+ pathOrUrl)
  end.

Definition getFluenceDir : string := "/proj/.fluence".

Definition getConfigPath (dir name : string) : string := dir +:+ "/" +:+ name +:+ ".yaml".

Definition yellow (s : string) : string := s.

Definition cwd : string := "/proj".

Definition serviceText : string :=
  unlines ["version: 0"; "name: svc1"; "modules:"; "  facade:"; "    get: './mod'"].

Definition badNameText : string :=
  unlines ["version: 0"; "name: 'Bad Name!'"; "modules:"; "  facade:"; "    get: './mod'"].

Definition newerText : string :=
  unlines ["version: 1"; "name: svc1"; "modules:"; "  facade:"; "    get: './mod'"].

Definition servicePath : string := "/proj/svc/service.yaml".

(** A project with one service. *)
Definition world : World :=
  mkWorld
    (<["/proj" := Dir]> (<["/proj/svc" := Dir]> (<[servicePath := File serviceText]> ∅)))
    "/proj" [] [].

(** A project whose service directory holds no config. *)
Definition worldWithoutConfig : World :=
  mkWorld (<["/proj" := Dir]> (<["/proj/svc" := Dir]> ∅)) "/proj" [] [].

Definition options : InitConfigOptions :=
  Service.getInitConfigOptions overridableModuleProperties BYTES_PATTERN
    SERVICE_CONFIG_FILE_NAME validateAquaName getFluenceDir "/proj/svc".

Definition handle : InitializedConfig :=
  mkConfig (Service.minimalDocument "svc1" "./mod") servicePath 0.

(** JSON text of a value, for the scaffolding's package files. *)
Fixpoint json (v : value) {struct v} : string :=
  match v with
  | VNull => "null"
  | VBool b => if b then "true" else "false"
  | VNum n => decimal n
  | VStr str => dq +:+ str +:+ dq
  | VArr items =>
      "[" +:+
      (fix json_items (l : list value) : string :=
         match l with
         | [] => EmptyString
         | [x] => json x
         | x :: rest => json x +:+ "," +:+ json_items rest
         end) items +:+ "]"
  | VObj fields =>
      "{" +:+
      (fix json_fields (l : list (string * value)) : string :=
         match l with
         | [] => EmptyString
         | [(k, x)] => dq +:+ k +:+ dq +:+ ":" +:+ json x
         | (k, x) :: rest =>
             dq +:+ k +:+ dq +:+ ":" +:+ json x +:+ "," +:+ json_fields rest
         end) fields +:+ "}"
  end.

Definition path_resolve (p : string) : string :=
  match p with
  | EmptyString => cwd
  | String "/" _ => p
  | _ => cwd +:+ "/" +:+ p
  end.

Definition ensureDir (p : string) : M string := mkdir_recursive p;; mret p.

#[local] Instance collaborators : Init.Collaborators := {|
  Init.RECOMMENDED_GITIGNORE_CONTENT := ".idea" +:+ Init.newline;
  Init.TEMPLATES := [Init.minimal; Init.ts; Init.js];
  Init.PACKAGE_JSON_FILE_NAME := "package.json";
  Init.INDEX_JS_FILE_NAME := "index.js";
  Init.INDEX_TS_FILE_NAME := "index.ts";
  Init.SRC_DIR_NAME := "src";
  Init.TEMPLATE_INDEX_FILE_CONTENT := "export {};" +:+ Init.newline;
  Init.TYPESCRIPT_RECOMMENDED_VERSION := "4.8.4";
  Init.TS_NODE_RECOMMENDED_VERSION := "10.9.1";
  Init.TS_CONFIG_FILE_NAME := "tsconfig.json";
  Init.JS_CLIENT_NODE_NPM_DEPENDENCY := "@fluencelabs/js-client.node";
  Init.JS_CLIENT_API_NPM_DEPENDENCY := "@fluencelabs/js-client.api";
  Init.FLUENCE_NETWORK_ENVIRONMENT_NPM_DEPENDENCY := "@fluencelabs/fluence-network-environment";
  Init.versions_npm := fun _ => "1.0.0";
  Init.replaceHomeDir := fun p => p;
  Init.jsonStringify := json;
  Init.ensureDefaultAquaJSPath := w ← get_world; ensureDir (projectRootDir w +:+ "/src/js/src/aqua");
  Init.ensureDefaultAquaTSPath := w ← get_world; ensureDir (projectRootDir w +:+ "/src/ts/src/aqua");
  Init.ensureDefaultJSDirPath := w ← get_world; ensureDir (projectRootDir w +:+ "/src/js");
  Init.ensureDefaultTSDirPath := w ← get_world; ensureDir (projectRootDir w +:+ "/src/ts");
  Init.ensureFluenceAquaServicesPath :=
    w ← get_world;
    ensureDir (projectRootDir w +:+ "/.fluence/aqua");;
    mret (projectRootDir w +:+ "/.fluence/aqua/services.aqua");
  Init.ensureVSCodeExtensionsJsonPath :=
    w ← get_world;
    ensureDir (projectRootDir w +:+ "/.vscode");;
    mret (projectRootDir w +:+ "/.vscode/extensions.json");
  Init.getGitignorePath := w ← get_world; mret (projectRootDir w +:+ "/.gitignore");
  Init.input := fun _ _ => Returned EmptyString;
  Init.list_prompt := fun _ _ _ => Returned Init.minimal;
  Init.isInteractive := true;
  Init.initNewFluenceConfig :=
    w ← get_world;
    writeFile (projectRootDir w +:+ "/fluence.yaml") (stringify (VObj [("version", VNum 2)]));;
    mret (mkConfig [("version", VNum 2)] (projectRootDir w +:+ "/fluence.yaml") 2);
  Init.initNewWorkersConfig :=
    w ← get_world;
    writeFile (projectRootDir w +:+ "/.fluence/workers.yaml")
              (stringify (VObj [("version", VNum 0)]));;
    mret (mkConfig [("version", VNum 0)] (projectRootDir w +:+ "/.fluence/workers.yaml") 0);
  Init.ensureAquaFileWithWorkerInfo := fun _ _ => mret tt;
  Init.ensureAquaImports := fun _ _ => mret tt;
  Init.stringify := stringify;
  Init.process_cwd := cwd;
  Init.path_resolve := path_resolve;
  Init.path_join := String.concat "/";
  Init.path_relative := fun from to =>
    match strip_prefix (from +:+ "/") to with Some rest => rest | None => to end;
  Init.JSON_stringify := fun v _ => json v;
  Init.yellow := yellow;
  Init.magentaBright := fun s => s
|}.

(** An empty world: nothing on disk yet. *)
Definition emptyWorld : World := mkWorld ∅ "" [] [].

(** *** The statements on the concrete setting *)

Example init_in_fresh_directory :
  exists h w',
    Init.init (Init.mkInitArg (Some "/fresh") (Some Init.js)) emptyWorld = (Returned h, w') /\
    lookup_key "aquaOutputJSPath" (config h) = Some (VStr "src/js/src/aqua") /\
    readFile (files w') "/fresh/.gitignore" = Some (".idea" +:+ Init.newline) /\
    files w' !! "/fresh/src/js" = Some Dir /\
    projectRootDir w' = "/fresh".
Proof. eexists _, _. vm_compute. repeat split. Qed.

Example open_service :
  getConfigInitFunction regexTest yaml_parse getConfigPath options None world
  = (Returned (Some handle), world).
Proof. vm_compute. reflexivity. Qed.

Lemma newer_version_is_version_mismatch_witness :
  resolveDocument regexTest yaml_parse options newerText
  = inl (VersionMismatch (Some 1)) /\
  forall (w : World) (getDefaultConfig : option string),
    readFile (files w) (configPathOf getConfigPath options) = Some newerText ->
    getConfigInitFunction regexTest yaml_parse getConfigPath options
      getDefaultConfig w
    = (Thrown (ConfigError (configPathOf getConfigPath options)
                 (VersionMismatch (Some 1))), w).
Proof.
  apply (Service.newer_version_is_version_mismatch regexTest yaml_parse
           overridableModuleProperties BYTES_PATTERN SERVICE_CONFIG_FILE_NAME
           validateAquaName getFluenceDir getConfigPath "/proj/svc" newerText
           (VObj [("version", VNum 1); ("name", VStr "svc1");
                  ("modules", VObj [("facade", VObj [("get", VStr "./mod")])])])
           1).
  - vm_compute. reflexivity.
  - reflexivity.
  - lia.
Defined.

Lemma default_template_validates_witness :
  Yaml.parse (Service.getDefault MAX_HEAP_SIZE_DESCRIPTION "./mod" "svc1")
  = Yaml.Ok (VObj (Service.minimalDocument "svc1" "./mod")) /\
  schema_errors regexTest
    (Service.configSchemaV0 overridableModuleProperties BYTES_PATTERN) []
    (VObj (Service.minimalDocument "svc1" "./mod")) = [] /\
  (validateAquaName (Some (VStr "svc1")) = Valid ->
   Service.validate validateAquaName (Service.minimalDocument "svc1" "./mod") = Valid).
Proof.
  apply (Service.default_template_validates regexTest overridableModuleProperties
           BYTES_PATTERN MAX_HEAP_SIZE_DESCRIPTION validateAquaName "./mod" "svc1");
    vm_compute; reflexivity.
Defined.

(** C3: the default template does not validate for every facade path.
    [getDefault] writes the path between single quotes and does not escape
    it: for the path [it's] the template holds the line [get: 'it's'], which
    is not YAML, so the generated file does not parse and loading it stops
    with a parse error. *)
Lemma default_template_quote_in_path :
  Yaml.parse (Service.getDefault MAX_HEAP_SIZE_DESCRIPTION "it's" "svc1")
  = Yaml.SyntaxError /\
  resolveDocument regexTest yaml_parse options
    (Service.getDefault MAX_HEAP_SIZE_DESCRIPTION "it's" "svc1")
  = inl ParseError.
Proof. split; vm_compute; reflexivity. Qed.

(** A name that YAML reads as a boolean: the template's document then has a
    structural error at [name]. *)
Example default_template_name_true :
  Yaml.parse (Service.getDefault MAX_HEAP_SIZE_DESCRIPTION "./mod" "true")
  = Yaml.Ok (VObj [("version", VNum 0); ("name", VBool true);
                   ("modules", VObj [("facade", VObj [("get", VStr "./mod")])])]) /\
  schema_errors regexTest
    (Service.configSchemaV0 overridableModuleProperties BYTES_PATTERN) []
    (VObj [("version", VNum 0); ("name", VBool true);
           ("modules", VObj [("facade", VObj [("get", VStr "./mod")])])])
  = [VError ["name"] KType].
Proof. split; vm_compute; reflexivity. Qed.

Lemma service_validate_after_structure_witness :
  resolveDocument regexTest yaml_parse options serviceText
  = inr (Service.minimalDocument "svc1" "./mod") /\
  resolveDocument regexTest yaml_parse options badNameText
  = inl (SemanticValidationError ("Invalid service name: " +:+ AQUA_NAME_REQUIREMENTS)).
Proof.
  destruct (Service.service_validate_after_structure regexTest yaml_parse
              overridableModuleProperties BYTES_PATTERN SERVICE_CONFIG_FILE_NAME
              validateAquaName getFluenceDir "/proj/svc")
    as (_ & _ & _ & Hgood & Hbad).
  split.
  - apply Hgood; vm_compute; reflexivity.
  - apply Hbad; vm_compute; reflexivity.
Defined.

(** A service without a facade module, otherwise in order. *)
Definition withoutFacade : value :=
  VObj [("version", VNum 0); ("name", VStr "svc1");
        ("modules", VObj [("worker", VObj [("get", VStr "./mod")])])].


(** On that document the violation at [modules] is the only one, and what
    the validator reports in either mode. *)
Example missing_facade_only_error :
  all_errors regexTest
    (Service.configSchemaV0 overridableModuleProperties BYTES_PATTERN) withoutFacade
  = [VError ["modules"] (KRequired "facade")] /\
  first_error_only regexTest
    (Service.configSchemaV0 overridableModuleProperties BYTES_PATTERN) withoutFacade
  = [VError ["modules"] (KRequired "facade")].
Proof. split; vm_compute; reflexivity. Qed.


Lemma missing_service_config_not_found_witness :
  Service.initServiceConfig regexTest yaml_parse overridableModuleProperties BYTES_PATTERN
    SERVICE_CONFIG_FILE_NAME validateAquaName ensureServiceAbsolutePath
    getFluenceDir getConfigPath "svc" cwd worldWithoutConfig
  = (Returned None, worldWithoutConfig) /\
  Service.ensureServiceConfig regexTest yaml_parse overridableModuleProperties BYTES_PATTERN
    SERVICE_CONFIG_FILE_NAME validateAquaName ensureServiceAbsolutePath
    getFluenceDir getConfigPath yellow cwd "svc" None worldWithoutConfig
  = (Thrown (CommandError "No service config found at svc"), worldWithoutConfig).
Proof.
  apply (Service.missing_service_config_not_found regexTest yaml_parse
           overridableModuleProperties BYTES_PATTERN SERVICE_CONFIG_FILE_NAME
           validateAquaName ensureServiceAbsolutePath getFluenceDir getConfigPath
           yellow cwd "svc" None worldWithoutConfig worldWithoutConfig "/proj/svc").
  - reflexivity.
  - vm_compute. reflexivity.
Defined.

Lemma commit_writes_latest_version_witness :
  (exists w',
     commit stringify (edit handle [("version", VNum 7); ("name", VStr "svc2")]) world
     = (Returned tt, w') /\
     files w' =
     <[configPathOf getConfigPath options :=
         File (stringify (committedDocument
                 (edit handle [("version", VNum 7); ("name", VStr "svc2")])))]>
       (files world)) /\
  declaredVersion
    (committedDocument (edit handle [("version", VNum 7); ("name", VStr "svc2")]))
  = Some (latestVersion options) /\
  latestVersion options = 0 /\
  allSchemas options
  = [Service.configSchemaV0 overridableModuleProperties BYTES_PATTERN] /\
  (forall doc,
     schema_errors regexTest
       (Service.configSchemaV0 overridableModuleProperties BYTES_PATTERN) [] doc = [] ->
     declaredVersion doc = Some 0).
Proof.
  apply (Service.commit_writes_latest_version regexTest yaml_parse overridableModuleProperties
           BYTES_PATTERN SERVICE_CONFIG_FILE_NAME validateAquaName getFluenceDir
           getConfigPath stringify options None world world world handle
           [("version", VNum 7); ("name", VStr "svc2")] "/proj/svc").
  vm_compute. reflexivity.
Defined.

Lemma init_refuses_non_empty_directory_witness :
  Init.init (Init.mkInitArg (Some "/proj") (Some Init.minimal)) world
  = (Thrown (CommandError
               "Directory /proj is not empty. Please, init in an empty directory."),
     mkWorld (files world) (projectRootDir world)
             (events world ++ ["init:template:minimal"]) (output world)) /\
  files (mkWorld (files world) (projectRootDir world)
                 (events world ++ ["init:template:minimal"]) (output world))
  = files world.
Proof.
  assert (Hdir : files world !! "/proj" = Some Dir) by (vm_compute; reflexivity).
  assert (Hentry : In "svc" (entries_of (files world) "/proj")) by (vm_compute; auto).
  exact (Init.init_refuses_non_empty_directory
           (Init.mkInitArg (Some "/proj") (Some Init.minimal)) world
           Init.minimal "/proj" "svc" eq_refl eq_refl Hdir Hentry).
Defined.

(** *** Further statements on the concrete setting *)

Definition schemaV0 : schema :=
  Service.configSchemaV0 overridableModuleProperties BYTES_PATTERN.

Lemma conforming_document_shape_witness :
  exists fields name modules facade get,
    VObj (Service.minimalDocument "svc1" "./mod") = VObj fields /\
    lookup_key "version" fields = Some (VNum 0) /\
    lookup_key "name" fields = Some (VStr name) /\
    lookup_key "modules" fields = Some (VObj modules) /\
    Service.isValidServiceModules modules = true /\
    lookup_key Service.FACADE_MODULE_NAME modules = Some (VObj facade) /\
    lookup_key "get" facade = Some (VStr get).
Proof.
  apply (Service.conforming_document_shape regexTest overridableModuleProperties
           BYTES_PATTERN (VObj (Service.minimalDocument "svc1" "./mod")));
    vm_compute; reflexivity.
Defined.

Lemma unknown_property_rejected_witness :
  Service.rejected regexTest overridableModuleProperties BYTES_PATTERN
    (first_error_only regexTest)
    (VObj (Service.minimalDocument "svc1" "./mod" ++ [("description", VStr "a service")])) /\
  In (VError [] (KAdditionalProperties "description"))
     (schema_errors regexTest schemaV0 []
        (VObj (Service.minimalDocument "svc1" "./mod" ++ [("description", VStr "a service")]))) /\
  (has_key "version"
     (Service.minimalDocument "svc1" "./mod" ++ [("description", VStr "a service")]) = true ->
   has_key "name"
     (Service.minimalDocument "svc1" "./mod" ++ [("description", VStr "a service")]) = true ->
   has_key "modules"
     (Service.minimalDocument "svc1" "./mod" ++ [("description", VStr "a service")]) = true ->
   exists unknown,
     first_error regexTest schemaV0 []
       (VObj (Service.minimalDocument "svc1" "./mod" ++ [("description", VStr "a service")]))
     = Some (VError [] (KAdditionalProperties unknown))).
Proof.
  apply (Service.unknown_property_rejected regexTest overridableModuleProperties
           BYTES_PATTERN (first_error_only regexTest)
           (Service.minimalDocument "svc1" "./mod" ++ [("description", VStr "a service")])
           "description" (VStr "a service")).
  - apply first_error_only_reports.
  - simpl. auto 6.
  - discriminate.
  - discriminate.
  - discriminate.
  - discriminate.
Defined.

Lemma every_module_is_checked_witness :
  In (VError ["modules"; "worker"] KType)
     (schema_errors regexTest schemaV0 []
        (VObj [("version", VNum 0); ("name", VStr "svc1");
               ("modules", VObj [("facade", VObj [("get", VStr "./mod")]);
                                 ("worker", VStr "./worker")])])) /\
  Service.rejected regexTest overridableModuleProperties BYTES_PATTERN
    (first_error_only regexTest)
    (VObj [("version", VNum 0); ("name", VStr "svc1");
           ("modules", VObj [("facade", VObj [("get", VStr "./mod")]);
                             ("worker", VStr "./worker")])]).
Proof.
  assert (Hmodules :
    In ("modules", VObj [("facade", VObj [("get", VStr "./mod")]);
                         ("worker", VStr "./worker")])
       [("version", VNum 0); ("name", VStr "svc1");
        ("modules", VObj [("facade", VObj [("get", VStr "./mod")]);
                          ("worker", VStr "./worker")])]) by (simpl; auto).
  assert (Hworker :
    In ("worker", VStr "./worker")
       [("facade", VObj [("get", VStr "./mod")]); ("worker", VStr "./worker")])
    by (simpl; auto).
  exact (Service.every_module_is_checked regexTest overridableModuleProperties
           BYTES_PATTERN (first_error_only regexTest) _ _ "worker" (VStr "./worker")
           (first_error_only_reports regexTest) Hmodules Hworker).
Defined.

Lemma totalMemoryLimit_checked_witness :
  schema_errors regexTest schemaV0 []
    (VObj (Service.minimalDocument "svc1" "./mod" ++ [("totalMemoryLimit", VNum 1024)]))
  = [VError ["totalMemoryLimit"] KType].
Proof.
  exact (Service.totalMemoryLimit_checked regexTest overridableModuleProperties
           BYTES_PATTERN "svc1" "./mod" (VNum 1024) eq_refl).
Defined.

(** A project config that lists the service [myService] at [svc]. *)
Definition fluenceConfig : InitializedReadonlyConfig :=
  mkReadonly
    [("version", VNum 2);
     ("services", VObj [("myService", VObj [("get", VStr "svc")])])]
    "/proj/fluence.yaml".

Lemma listed_service_resolves_as_its_path_witness :
  Service.ensureServiceConfig regexTest yaml_parse overridableModuleProperties BYTES_PATTERN
    SERVICE_CONFIG_FILE_NAME validateAquaName ensureServiceAbsolutePath
    getFluenceDir getConfigPath yellow cwd "myService" (Some fluenceConfig) world
  = Service.ensureServiceConfig regexTest yaml_parse overridableModuleProperties BYTES_PATTERN
      SERVICE_CONFIG_FILE_NAME validateAquaName ensureServiceAbsolutePath
      getFluenceDir getConfigPath yellow cwd "svc" None world.
Proof.
  apply (Service.listed_service_resolves_as_its_path regexTest yaml_parse
           overridableModuleProperties BYTES_PATTERN SERVICE_CONFIG_FILE_NAME
           validateAquaName ensureServiceAbsolutePath getFluenceDir getConfigPath
           yellow cwd "myService" (Some fluenceConfig) "svc" world).
  - reflexivity.
  - discriminate.
Defined.

(** The service is found through the project config. *)
Example listed_service_opens :
  Service.ensureServiceConfig regexTest yaml_parse overridableModuleProperties BYTES_PATTERN
    SERVICE_CONFIG_FILE_NAME validateAquaName ensureServiceAbsolutePath
    getFluenceDir getConfigPath yellow cwd "myService" (Some fluenceConfig) world
  = (Returned handle, world).
Proof. vm_compute. reflexivity. Qed.

Lemma default_template_non_string_name_witness :
  exists v doc,
    Yaml.parse (Service.getDefault MAX_HEAP_SIZE_DESCRIPTION "./mod" "2023") = Yaml.Ok doc /\
    get_field "name" doc = Some v /\
    Yaml.is_scalar_non_string v = true /\
    schema_errors regexTest schemaV0 [] doc = [VError ["name"] KType].
Proof.
  apply (Service.default_template_non_string_name regexTest overridableModuleProperties
           BYTES_PATTERN MAX_HEAP_SIZE_DESCRIPTION "./mod" "2023");
    vm_compute; reflexivity.
Defined.

Lemma init_on_a_file_fails_in_mkdir_witness :
  Init.init (Init.mkInitArg (Some servicePath) (Some Init.ts)) world
  = (Thrown (SystemError "EEXIST" servicePath),
     mkWorld (files world) (projectRootDir world)
             (events world ++ ["init:template:ts"]) (output world)).
Proof.
  assert (Hne : servicePath <> EmptyString) by discriminate.
  assert (Hfile : files world !! servicePath = Some (File serviceText))
    by (vm_compute; reflexivity).
  exact (Init.init_on_a_file_fails_in_mkdir
           (Init.mkInitArg (Some servicePath) (Some Init.ts)) world
           Init.ts servicePath serviceText eq_refl eq_refl Hne Hfile).
Defined.

Lemma init_returns_only_on_fresh_path_witness :
  files emptyWorld !! "/fresh" = None \/
  (files emptyWorld !! "/fresh" = Some Dir /\ entries_of (files emptyWorld) "/fresh" = []).
Proof.
  assert (Hrun : exists h w',
             Init.init (Init.mkInitArg (Some "/fresh") (Some Init.js)) emptyWorld
             = (Returned h, w'))
    by (eexists _, _; vm_compute; reflexivity).
  destruct Hrun as (h & w' & Hrun).
  assert (Hne : "/fresh" <> EmptyString) by discriminate.
  exact (Init.init_returns_only_on_fresh_path
           (Init.mkInitArg (Some "/fresh") (Some Init.js)) emptyWorld w'
           Init.js "/fresh" h eq_refl eq_refl Hne Hrun).
Defined.

(** A new project config in the project [/fresh]. *)
Definition freshConfig : InitializedConfig :=
  mkConfig [("version", VNum 2)] "/fresh/fluence.yaml" 2.

Definition freshWorld : World := mkWorld ∅ "/fresh" [] [].

Lemma initTSorJSProject_edits_one_field_witness :
  exists edited w',
    Init.initTSorJSProject false freshConfig freshWorld = (Returned edited, w') /\
    (exists relative,
       lookup_key "aquaOutputTSPath" (config edited) = Some (VStr relative)) /\
    (forall k, k <> "aquaOutputTSPath" ->
       lookup_key k (config edited) = lookup_key k (config freshConfig)) /\
    config_path edited = config_path freshConfig /\
    readFile (files w') (config_path freshConfig)
    = Some (stringify (committedDocument edited)).
Proof.
  assert (Hrun : exists edited w',
             Init.initTSorJSProject false freshConfig freshWorld = (Returned edited, w'))
    by (eexists _, _; vm_compute; reflexivity).
  destruct Hrun as (edited & w' & Hrun).
  exists edited, w'. split; [exact Hrun|].
  exact (Init.initTSorJSProject_edits_one_field false freshConfig edited
           freshWorld w' Hrun).
Defined.

Lemma init_returns_the_project_config_witness :
  exists h w',
    Init.init (Init.mkInitArg (Some "/fresh") (Some Init.js)) emptyWorld
    = (Returned h, w') /\
    exists (created : InitializedConfig) (w0 w0' : World),
      Init.initNewFluenceConfig w0 = (Returned created, w0') /\
      exists relative, h = assign "aquaOutputJSPath" (VStr relative) created.
Proof.
  assert (Hrun : exists h w',
             Init.init (Init.mkInitArg (Some "/fresh") (Some Init.js)) emptyWorld
             = (Returned h, w'))
    by (eexists _, _; vm_compute; reflexivity).
  destruct Hrun as (h & w' & Hrun).
  exists h, w'. split; [exact Hrun|].
  exact (Init.init_returns_the_project_config
           (Init.mkInitArg (Some "/fresh") (Some Init.js)) emptyWorld w' Init.js h
           eq_refl Hrun).
Defined.

Definition NETWORKS : list string := ["kras"; "stage"; "testnet"].


(** Without any network named [kras], the default is still written, and a
    second initialisation would refuse it. *)
Lemma setupEnvironment_again_witness :
  (SetupEnvironment.setupEnvironment ["stage"]
     (<[SetupEnvironment.FLUENCE_ENV := "kras"]> ∅)
   = inr (<[SetupEnvironment.FLUENCE_ENV := "kras"]> ∅) <->
   is_Some ((∅ : gmap string string) !! SetupEnvironment.FLUENCE_ENV) \/
   SetupEnvironment.isFluenceEnv ["stage"] "kras" = true) /\
  (SetupEnvironment.setupEnvironment ["stage"]
     (<[SetupEnvironment.FLUENCE_ENV := "kras"]> ∅)
   = inr (<[SetupEnvironment.FLUENCE_ENV := "kras"]> ∅) \/
   SetupEnvironment.setupEnvironment ["stage"]
     (<[SetupEnvironment.FLUENCE_ENV := "kras"]> ∅)
   = inl ("Invalid environment variable: " +:+ SetupEnvironment.FLUENCE_ENV +:+ "=" +:+
          dq +:+ "kras" +:+ dq)).
Proof.
  apply (SetupEnvironment.setupEnvironment_again ["stage"] ∅).
  vm_compute. reflexivity.
Defined.

(** *** A deployment of two workers *)

Definition dealCreate (arg : Deploy.DealCreateArg) : M string :=
  mret ("deal:" +:+ Deploy.create_network arg +:+ ":" +:+ Deploy.create_appCID arg).

(** A deal creator that knows the test network only. *)
Definition dealCreateOnTestnet (arg : Deploy.DealCreateArg) : M string :=
  if String.eqb (Deploy.create_network arg) "testnet" then dealCreate arg
  else throw (CommandError ("Unknown network " +:+ Deploy.create_network arg)).

Definition dealUpdate (arg : Deploy.DealUpdateArg) : M unit :=
  commandObj_log ("updated " +:+ Deploy.update_dealAddress arg).

Definition commitDeals (deals : list Deploy.DeployedDeal) : M unit :=
  writeFile "/proj/.fluence/deployed.yaml"
    (String.concat "," (map Deploy.dealAddress deals)).

Definition toISOString_now : M string := mret "2023-03-01T12:00:00.000Z".

Definition AssertionError : failure := SystemError "ERR_ASSERTION" EmptyString.

Definition uploaded : list Deploy.UploadedWorker :=
  [Deploy.mkUploadedWorker "workerA" "cidA2"; Deploy.mkUploadedWorker "workerB" "cidB"].

Definition deals : list Deploy.Deal :=
  [Deploy.mkDeal "workerA" None (Some 5); Deploy.mkDeal "workerB" None None].

(** The loop on the resolved network [kras], with a deals config that names
    no network, answering every question with [answer]. *)
Definition deploy (answer : bool) : list string -> list Deploy.DeployedDeal ->
                                    M (list Deploy.DeployedDeal) :=
  Deploy.deployWorkers 1 3 dealCreate dealUpdate (fun _ _ => Returned answer)
    commitDeals toISOString_now yellow AssertionError uploaded deals None "kras" None.

(** [workerA] was deployed on [kras] before. *)
Definition deployedA : Deploy.DeployedDeal :=
  Deploy.mkDeployedDeal "workerA" "deal:testnet:cidA1" "2023-02-01T12:00:00.000Z"
    "cidA1" "kras".

(** [workerA] was deployed on another network before. *)
Definition deployedElsewhere : Deploy.DeployedDeal :=
  Deploy.mkDeployedDeal "workerA" "deal:stage:cidA1" "2023-02-01T12:00:00.000Z"
    "cidA1" "stage".

Example deploy_update_and_create :
  fst (deploy true ["workerA"; "workerB"] [deployedA] world)
  = Returned
      [Deploy.mkDeployedDeal "workerA" "deal:testnet:cidA1" "2023-03-01T12:00:00.000Z"
         "cidA1" "kras";
       Deploy.mkDeployedDeal "workerB" "deal:testnet:cidB" "2023-03-01T12:00:00.000Z"
         "cidB" "kras"].
Proof. vm_compute. reflexivity. Qed.

Lemma deployWorkers_keeps_records_witness :
  exists deployed' w',
    deploy true ["workerA"; "workerB"] [deployedA] world = (Returned deployed', w') /\
    (length [deployedA] <= length deployed'
     <= length [deployedA] + length ["workerA"; "workerB"])%nat /\
    forall i d,
      [deployedA] !! i = Some d ->
      exists d',
        deployed' !! i = Some d' /\
        Deploy.workerName d' = Deploy.workerName d /\
        Deploy.dealAddress d' = Deploy.dealAddress d /\
        Deploy.workerCID d' = Deploy.workerCID d /\
        Deploy.network d' = Deploy.network d.
Proof.
  assert (Hrun : exists deployed' w',
             deploy true ["workerA"; "workerB"] [deployedA] world
             = (Returned deployed', w'))
    by (eexists _, _; vm_compute; reflexivity).
  destruct Hrun as (deployed' & w' & Hrun).
  exists deployed', w'. split; [exact Hrun|].
  exact (Deploy.deployWorkers_keeps_records 1 3 dealCreate dealUpdate
           (fun _ _ => Returned true) commitDeals toISOString_now yellow
           AssertionError uploaded deals None "kras" None
           ["workerA"; "workerB"] [deployedA] deployed' world w' Hrun).
Defined.

Lemma deployWorkers_records_every_worker_witness :
  exists deployed' w',
    deploy false ["workerA"; "workerB"] [] world = (Returned deployed', w') /\
    exists d,
      In d deployed' /\ Deploy.workerName d = "workerB" /\ Deploy.network d = "kras".
Proof.
  assert (Hrun : exists deployed' w',
             deploy false ["workerA"; "workerB"] [] world = (Returned deployed', w'))
    by (eexists _, _; vm_compute; reflexivity).
  destruct Hrun as (deployed' & w' & Hrun).
  assert (Hin : In "workerB" ["workerA"; "workerB"]) by (simpl; auto).
  exists deployed', w'. split; [exact Hrun|].
  exact (Deploy.deployWorkers_records_every_worker 1 3 dealCreate dealUpdate
           (fun _ _ => Returned false) commitDeals toISOString_now yellow
           AssertionError uploaded deals None "kras" None
           ["workerA"; "workerB"] [] deployed' world w' "workerB" Hrun Hin).
Defined.

Lemma deployWorkers_stops_at_missing_worker_witness :
  deploy true (["workerA"] ++ "workerC" :: ["workerB"]) [] world
  = match deploy true ["workerA"] [] world with
    | (Returned _, w1) => (Thrown AssertionError, w1)
    | (Thrown f, w1) => (Thrown f, w1)
    end.
Proof.
  apply (Deploy.deployWorkers_stops_at_missing_worker 1 3 dealCreate dealUpdate
           (fun _ _ => Returned true) commitDeals toISOString_now yellow
           AssertionError uploaded deals None "kras" None
           ["workerA"] ["workerB"] "workerC" [] world).
  left. reflexivity.
Defined.

Lemma deployWorkers_first_deployment_witness :
  exists deployed' w',
    deploy true ["workerA"; "workerB"] [deployedElsewhere] world
    = (Returned deployed', w') /\
    exists created,
      deployed' = [deployedElsewhere] ++ created /\
      map Deploy.workerName created = ["workerA"; "workerB"] /\
      Forall (fun d => Deploy.network d = "kras" /\
                       Deploy.appCIDOf uploaded (Deploy.workerName d)
                       = Some (Deploy.workerCID d)) created.
Proof.
  assert (Hrun : exists deployed' w',
             deploy true ["workerA"; "workerB"] [deployedElsewhere] world
             = (Returned deployed', w'))
    by (eexists _, _; vm_compute; reflexivity).
  destruct Hrun as (deployed' & w' & Hrun).
  assert (Hdistinct : NoDup ["workerA"; "workerB"]).
  { apply NoDup_cons. split; [|apply NoDup_singleton].
    intros Hin. apply list_elem_of_In in Hin. simpl in Hin.
    destruct Hin as [Heq|[]]. discriminate Heq. }
  assert (Hfresh : forall d, In d [deployedElsewhere] ->
                     In (Deploy.workerName d) ["workerA"; "workerB"] ->
                     Deploy.network d <> "kras").
  { intros d [<-|[]] _. discriminate. }
  exists deployed', w'. split; [exact Hrun|].
  exact (Deploy.deployWorkers_first_deployment 1 3 dealCreate dealUpdate
           (fun _ _ => Returned true) commitDeals toISOString_now yellow
           AssertionError uploaded deals None "kras" None
           ["workerA"; "workerB"] [deployedElsewhere] deployed' world w'
           Hdistinct Hfresh Hrun).
Defined.

Lemma declined_update_creates_second_record_witness :
  exists deployed' w',
    Deploy.deployWorker 1 3 dealCreate dealUpdate (fun _ _ => Returned false)
      commitDeals toISOString_now yellow AssertionError uploaded deals None "kras" None
      "workerA" [deployedA] world = (Returned deployed', w') /\
    (exists address now appCID,
       Deploy.appCIDOf uploaded "workerA" = Some appCID /\
       deployed' = [deployedA] ++ [Deploy.mkDeployedDeal "workerA" address now appCID "kras"]) /\
    Deploy.previouslyDeployed "workerA" deployed' = Some (0%nat, deployedA).
Proof.
  assert (Hrun : exists deployed' w',
             Deploy.deployWorker 1 3 dealCreate dealUpdate (fun _ _ => Returned false)
               commitDeals toISOString_now yellow AssertionError uploaded deals None
               "kras" None "workerA" [deployedA] world = (Returned deployed', w'))
    by (eexists _, _; vm_compute; reflexivity).
  destruct Hrun as (deployed' & w' & Hrun).
  exists deployed', w'. split; [exact Hrun|].
  exact (Deploy.declined_update_creates_second_record 1 3 dealCreate dealUpdate
           (fun _ _ => Returned false) commitDeals toISOString_now yellow
           AssertionError uploaded deals None "kras" None
           "workerA" [deployedA] deployed' 0%nat deployedA world w'
           eq_refl eq_refl eq_refl Hrun).
Defined.

Lemma deployWorkers_networks_witness :
  deploy true ["workerA"; "workerB"] [deployedA] world
  = Deploy.deployWorkers 1 3 dealCreateOnTestnet dealUpdate (fun _ _ => Returned true)
      commitDeals toISOString_now yellow AssertionError uploaded deals None "kras" None
      ["workerA"; "workerB"] [deployedA] world.
Proof.
  apply (Deploy.deployWorkers_networks 1 3 dealCreate dealCreateOnTestnet
           dealUpdate dealUpdate (fun _ _ => Returned true) commitDeals
           toISOString_now yellow AssertionError uploaded deals None "kras" None
           ["workerA"; "workerB"] [deployedA] world).
  - intros arg Hnetwork. unfold dealCreateOnTestnet. now rewrite Hnetwork.
  - reflexivity.
Defined.

(** *** Commit and open again, on the concrete setting *)








End Examples.
